(** * telefax: a Telegram bot that relays photos to a CUPS label printer

    A shallow embedding of [bot.py] and the proofs of its specification.
    Python text is a sequence of Unicode code points; exceptions are an
    explicit outcome; the handlers run in a small state-and-exception monad
    over the files on disk and the trace of observable events. *)

From Stdlib Require Import ZArith NArith List String Ascii Bool Lia DecimalString.
From Stdlib.Strings Require Import Byte.
From stdpp Require Import base gmap strings list.

Local Open Scope Z_scope.

(** ** Python text *)

(** A [str] is a sequence of code points. *)
Definition pystr := list N.

(** The code points of a literal of the source (all of them are ASCII). *)
Definition str (s : string) : pystr := map N_of_ascii (list_ascii_of_string s).

(** Code points of the literals the regular expression is made of. *)
Definition chr (a : ascii) : N := N_of_ascii a.

(** Truth value of an optional text: [None] and [''] are falsy. *)
Definition truthy (s : option pystr) : bool :=
  match s with
  | None => false
  | Some [] => false
  | Some (_ :: _) => true
  end.

(** ** Exceptions *)

Inductive Exn :=
| ValueError (msg : pystr)
| TypeError (msg : pystr)
| CalledProcessError (cmd : list pystr) (returncode : Z) (output stderr : pystr)
| OtherError (msg : pystr).   (* any other subclass of Exception, with its str() *)

Inductive Outcome (A : Type) :=
| Returns (a : A)
| Raises (e : Exn).
Arguments Returns {A} a.
Arguments Raises {A} e.

Definition obind {A B} (o : Outcome A) (f : A -> Outcome B) : Outcome B :=
  match o with
  | Returns a => f a
  | Raises e => Raises e
  end.

(** ** The Python runtime

    The Unicode database is written out for Latin-1 (code points below 256);
    above it the tables are those of the interpreter that runs the bot, and
    so is the limit on the length of a decimal literal that [int] accepts
    ([sys.get_int_max_str_digits()], absent before Python 3.11). *)

Record Runtime := {
  (* str.lower of one code point, given the text before and after it
     (the lowering of a capital sigma depends on both) *)
  ucd_lower : pystr -> N -> pystr -> pystr;
  (* the value of a decimal digit (category Nd), None for other code points *)
  ucd_decimal : N -> option Z;
  (* str.isdigit *)
  ucd_isdigit : N -> bool;
  (* str.isspace *)
  ucd_isspace : N -> bool;
  (* str.isalnum *)
  ucd_isalnum : N -> bool;
  max_str_digits : option nat;
  (* the message of the ValueError that int raises on a text *)
  int_error : pystr -> pystr;
  (* str() of a CalledProcessError with this command and exit status *)
  called_process_str : list pystr -> Z -> pystr
}.

Definition in_range (lo hi c : N) : bool := ((lo <=? c) && (c <=? hi))%N.

Section Python.

Variable rt : Runtime.

Definition lower_char (before : pystr) (c : N) (after : pystr) : pystr :=
  if (c <? 256)%N then
    if in_range 65 90 c || (in_range 192 222 c && negb (c =? 215)%N)
    then [(c + 32)%N] else [c]
  else ucd_lower rt before c after.

Fixpoint lower_from (before s : pystr) : pystr :=
  match s with
  | [] => []
  | c :: after => lower_char before c after ++ lower_from (before ++ [c]) after
  end.

(** [s.lower()] *)
Definition lower (s : pystr) : pystr := lower_from [] s.

(** Value of a decimal digit, the characters [\d] matches and [int] reads. *)
Definition decimal_value (c : N) : option Z :=
  if (c <? 256)%N then
    if in_range 48 57 c then Some (Z.of_N c - 48) else None
  else ucd_decimal rt c.

Definition is_decimal (c : N) : bool :=
  match decimal_value c with Some _ => true | None => false end.

(** One character of [str.isdigit]: the decimal digits and, in Latin-1, the
    superscripts two, three and one. *)
Definition isdigit_char (c : N) : bool :=
  if (c <? 256)%N then
    in_range 48 57 c || (c =? 178)%N || (c =? 179)%N || (c =? 185)%N
  else ucd_isdigit rt c.

(** [s.isdigit()]: every character is a digit and there is at least one. *)
Definition isdigit (s : pystr) : bool :=
  match s with
  | [] => false
  | _ => forallb isdigit_char s
  end.

(** [\s] *)
Definition is_space (c : N) : bool :=
  if (c <? 256)%N then
    in_range 9 13 c || in_range 28 32 c || (c =? 133)%N || (c =? 160)%N
  else ucd_isspace rt c.

(** [\w]: alphanumeric or the underscore. *)
Definition is_word (c : N) : bool :=
  if (c <? 256)%N then
    in_range 48 57 c || in_range 65 90 c || in_range 97 122 c || (c =? 95)%N
    || (c =? 170)%N || (c =? 178)%N || (c =? 179)%N || (c =? 181)%N
    || (c =? 185)%N || (c =? 186)%N || in_range 188 190 c
    || in_range 192 214 c || in_range 216 246 c || in_range 248 255 c
  else ucd_isalnum rt c.

(** *** [int] on a text without sign, blanks or underscores, which is all the
    program ever passes to it *)

Fixpoint digits_value (acc : Z) (s : pystr) : option Z :=
  match s with
  | [] => Some acc
  | c :: s' =>
      match decimal_value c with
      | Some d => digits_value (10 * acc + d) s'
      | None => None
      end
  end.

(** Literals of more than 640 digits are checked against the configured
    limit. *)
Definition too_many_digits (n : nat) : bool :=
  (640 <? n)%nat &&
  match max_str_digits rt with
  | Some limit => (limit <? n)%nat
  | None => false
  end.

Definition py_int (s : pystr) : Outcome Z :=
  match s with
  | [] => Raises (ValueError (int_error rt s))
  | _ =>
      match digits_value 0 s with
      | Some v =>
          if too_many_digits (length s) then Raises (ValueError (int_error rt s))
          else Returns v
      | None => Raises (ValueError (int_error rt s))
      end
  end.

(** [str(e)] of an exception. *)
Definition exn_str (e : Exn) : pystr :=
  match e with
  | ValueError msg | TypeError msg | OtherError msg => msg
  | CalledProcessError cmd rc _ _ => called_process_str rt cmd rc
  end.

(** [str(n)] of an integer. *)
Definition str_of_Z (n : Z) : pystr :=
  str (DecimalString.NilZero.string_of_int (Z.to_int n)).

End Python.


(** ** Regular expressions: the fragment of [re] the bot uses

    A backtracking matcher in continuation-passing style: alternatives are
    tried left to right, repetition is greedy, and [re.search] returns the
    leftmost match. *)

Inductive regex :=
| Eps
| Lit (c : N)                  (* a literal character *)
| Class (p : N -> bool)        (* a character class: \d, \s *)
| WordBoundary                 (* \b *)
| Seq (r1 r2 : regex)
| Alt (r1 r2 : regex)          (* r1|r2 *)
| Star (p : N -> bool)         (* greedy repetition of a character class *)
| Group (r : regex).           (* the capturing group *)

(** Where the matcher stands in the subject: the character before it, the
    text ahead, the offset, and what the group has captured so far. *)
Record cursor := {
  c_prev : option N;
  c_rest : pystr;
  c_pos : nat;
  c_group : option pystr
}.

Definition advance (cu : cursor) (x : N) (s : pystr) : cursor :=
  {| c_prev := Some x; c_rest := s; c_pos := S (c_pos cu); c_group := c_group cu |}.

Definition capture (start cu : cursor) : cursor :=
  {| c_prev := c_prev cu; c_rest := c_rest cu; c_pos := c_pos cu;
     c_group := Some (take (c_pos cu - c_pos start) (c_rest start)) |}.

(** The text a match object exposes: where it starts and group 1. *)
Record Match := {
  m_start : nat;
  m_group1 : option pystr
}.

Section Regex.

Variable rt : Runtime.

Definition word_at (c : option N) : bool :=
  match c with
  | Some x => is_word rt x
  | None => false
  end.

(** [\b]: exactly one of the two neighbours is a word character. *)
Definition at_boundary (cu : cursor) : bool :=
  xorb (word_at (c_prev cu)) (word_at (head (c_rest cu))).

Fixpoint star_greedy {A} (p : N -> bool) (k : cursor -> option A)
    (prev : option N) (s : pystr) (pos : nat) (g : option pystr) : option A :=
  let here := {| c_prev := prev; c_rest := s; c_pos := pos; c_group := g |} in
  match s with
  | x :: s' =>
      if p x then
        match star_greedy p k (Some x) s' (S pos) g with
        | Some r => Some r
        | None => k here
        end
      else k here
  | [] => k here
  end.

Fixpoint rmatch {A} (r : regex) (cu : cursor) (k : cursor -> option A) : option A :=
  match r with
  | Eps => k cu
  | Lit c =>
      match c_rest cu with
      | x :: s => if (x =? c)%N then k (advance cu x s) else None
      | [] => None
      end
  | Class p =>
      match c_rest cu with
      | x :: s => if p x then k (advance cu x s) else None
      | [] => None
      end
  | WordBoundary => if at_boundary cu then k cu else None
  | Seq r1 r2 => rmatch r1 cu (fun cu' => rmatch r2 cu' k)
  | Alt r1 r2 =>
      match rmatch r1 cu k with
      | Some m => Some m
      | None => rmatch r2 cu k
      end
  | Star p => star_greedy p k (c_prev cu) (c_rest cu) (c_pos cu) (c_group cu)
  | Group r' => rmatch r' cu (fun cu' => k (capture cu cu'))
  end.

(** A match of [r] that starts exactly here. *)
Definition match_here (r : regex) (prev : option N) (s : pystr) (pos : nat)
    : option Match :=
  rmatch r {| c_prev := prev; c_rest := s; c_pos := pos; c_group := None |}
    (fun cu => Some {| m_start := pos; m_group1 := c_group cu |}).

Fixpoint search_from (r : regex) (prev : option N) (s : pystr) (pos : nat)
    : option Match :=
  match match_here r prev s pos with
  | Some m => Some m
  | None =>
      match s with
      | [] => None
      | c :: s' => search_from r (Some c) s' (S pos)
      end
  end.

(** [re.search(r, s)] *)
Definition re_search (r : regex) (s : pystr) : option Match :=
  search_from r None s 0.

(** A literal word, character by character. *)
Definition word (s : string) : regex :=
  fold_right (fun a r => Seq (Lit (chr a)) r) Eps (list_ascii_of_string s).

(** [\d+] *)
Definition digits : regex := Seq (Class (is_decimal rt)) (Star (is_decimal rt)).

(** [\bcopies\s*=\s*] *)
Definition copies_prefix : regex :=
  Seq WordBoundary
    (Seq (word "copies")
       (Seq (Star (is_space rt)) (Seq (Lit (chr "=")) (Star (is_space rt))))).

(** The pattern of [parse_copies]: either [x] or [\bcopies\s*=\s*], not
    captured, then [\d+] as group 1. *)
Definition copies_regex : regex :=
  Seq (Alt (Lit (chr "x")) copies_prefix) (Group digits).

(** ** [parse_copies] *)

Definition parse_copies (caption : option pystr) : Outcome Z :=
  match caption with
  | None => Returns 1
  | Some [] => Returns 1
  | Some caption =>
      let caption := lower rt caption in
      match re_search copies_regex caption with
      | Some m =>
          let attempt :=
            obind
              (match m_group1 m with
               | Some g => py_int rt g
               | None =>
                   Raises (TypeError (str
                     "int() argument must be a string, a bytes-like object or a real number, not 'NoneType'"))
               end)
              (fun copies => Returns (Z.max 1 copies)) in
          match attempt with
          | Raises (ValueError _) => Returns 1
          | other => other
          end
      | None => Returns 1
      end
  end.

(** *** The multiplier read on its own

    What the specification calls the first occurrence of the letter x
    immediately followed by one or more digits, found by a plain scan that
    knows nothing of the regular expression. *)

Fixpoint take_digits (s : pystr) : pystr :=
  match s with
  | c :: s' => if is_decimal rt c then c :: take_digits s' else []
  | [] => []
  end.

Definition x_digits_here (s : pystr) : option pystr :=
  match s with
  | c :: s' =>
      if (c =? chr "x")%N then
        match take_digits s' with
        | [] => None
        | ds => Some ds
        end
      else None
  | [] => None
  end.

(** The offset of that occurrence and its digits. *)
Fixpoint first_x_digits (s : pystr) : option (nat * pystr) :=
  match x_digits_here s with
  | Some ds => Some (0%nat, ds)
  | None =>
      match s with
      | [] => None
      | _ :: s' =>
          match first_x_digits s' with
          | Some (i, ds) => Some (S i, ds)
          | None => None
          end
      end
  end.

(** Each alternative of the pattern on its own, with its digits. *)
Definition x_alternative : regex := Seq (Lit (chr "x")) (Group digits).
Definition copies_alternative : regex := Seq copies_prefix (Group digits).

(** Does a match of [copies=<N>] start before offset [i] of [s]? *)
Definition copies_match_before (s : pystr) (i : nat) : bool :=
  match re_search copies_alternative s with
  | Some m => (m_start m <? i)%nat
  | None => false
  end.

End Regex.

(** A CPython 3.11 whose text stays within Latin-1: no code point above it
    is a digit, a blank or a letter, and [int] reads at most 4300 digits. *)
Definition latin1_runtime : Runtime := {|
  ucd_lower := fun _ c _ => [c];
  ucd_decimal := fun _ => None;
  ucd_isdigit := fun _ => false;
  ucd_isspace := fun _ => false;
  ucd_isalnum := fun _ => false;
  max_str_digits := Some 4300%nat;
  int_error := fun s => str "invalid literal for int() with base 10";
  called_process_str := fun _ _ => str "Command returned non-zero exit status"
|}.

(** ** Configuration *)

Record Config := {
  TELEGRAM_BOT_TOKEN : option pystr;
  CUPS_PRINTER_NAME : option pystr;
  CUPS_SERVER_HOST : option pystr;
  ALLOWED_USER_IDS : list Z
}.

(** [s.split(sep)] for a one-character separator; [cur] is the field being
    read. *)
Fixpoint split_on (sep : N) (cur s : pystr) : list pystr :=
  match s with
  | [] => [cur]
  | c :: s' =>
      if (c =? sep)%N then cur :: split_on sep [] s'
      else split_on sep (cur ++ [c]) s'
  end.

Definition split (sep : N) (s : pystr) : list pystr := split_on sep [] s.

Section AllowList.

Variable rt : Runtime.

(** [[int(user_id) for user_id in fields if user_id.isdigit()]]: the first
    conversion that raises ends the comprehension. *)
Fixpoint int_fields (fields : list pystr) : Outcome (list Z) :=
  match fields with
  | [] => Returns []
  | user_id :: rest =>
      if isdigit rt user_id then
        obind (py_int rt user_id) (fun n =>
        obind (int_fields rest) (fun ns => Returns (n :: ns)))
      else int_fields rest
  end.

(** The two module-level assignments to [ALLOWED_USER_IDS], from the value of
    the environment variable of that name (['']  when it is unset). *)
Definition allowed_user_ids (env_value : option pystr) : Outcome (list Z) :=
  let raw := match env_value with Some v => v | None => [] end in
  int_fields (split (chr ",") raw).

End AllowList.

(** ** Constants *)

Definition LABEL_WIDTH_INCHES : Z := 4.
Definition LABEL_HEIGHT_INCHES : Z := 6.
Definition IMAGE_DPI : Z := 300.

Definition LABEL_WIDTH_PX : Z := LABEL_WIDTH_INCHES * IMAGE_DPI.
Definition LABEL_HEIGHT_PX : Z := LABEL_HEIGHT_INCHES * IMAGE_DPI.

(** ** The world outside the process *)

Definition bytes := list byte.
Definition path := pystr.

(** What Pillow exposes of a decoded image. *)
Record Image := {
  mode : pystr;
  size : Z * Z
}.

Record PhotoSize := {
  file_id : pystr
}.

Record User := {
  id : Z;
  username : option pystr;
  mention_html : pystr
}.

Record Update := {
  effective_user : User;
  photo : list PhotoSize;
  caption : option pystr
}.

Inductive Level := INFO | WARNING | ERROR.

(** What the bot does that can be observed from outside, in order. *)
Inductive Event :=
| Log (level : Level) (msg : pystr)
| ReplyText (text : pystr)
| ReplyHtml (text : pystr)
| GetFile (p : PhotoSize)
| ImageOpen (data : bytes)
| ImageThumbnail (box : Z * Z)
| ImageSave (format : pystr)
| TempCreate (name : path)
| TempWrite (name : path) (data : bytes)
| TempDelete (name : path)
| Run (cmd : list pystr).

(** An answer of a library or of the operating system: a value, or an
    exception with its message. *)
Inductive Answer (A : Type) :=
| Done (a : A)
| Failed (msg : pystr).
Arguments Done {A} a.
Arguments Failed {A} msg.

(** How [subprocess.run] ends: the process ran and exited, or could not be
    started. *)
Inductive RunResult :=
| Exited (returncode : Z) (stdout stderr : pystr)
| NotStarted (msg : pystr).

(** The answers of the outside world to the calls of the bot. The programs
    the bot runs leave its temporary file alone: what is on disk changes only
    where the bot creates or removes a file. *)
Record Env := {
  download : PhotoSize -> Answer bytes;
  image_open : bytes -> Answer Image;
  image_thumbnail : Z * Z -> Image -> Answer Image;
  image_save : Image -> pystr -> Answer bytes;
  tmp_create : pystr -> Answer path;
  tmp_write : path -> bytes -> Answer unit;
  subprocess_run : list pystr -> RunResult
}.

Record World := {
  files : gset path;
  trace : list Event
}.

(** ** The monad of the handlers: state and exceptions *)

Definition M (A : Type) : Type := World -> Outcome A * World.

Definition ret {A} (a : A) : M A := fun w => (Returns a, w).

Definition bind {A B} (m : M A) (f : A -> M B) : M B :=
  fun w =>
    match m w with
    | (Returns a, w') => f a w'
    | (Raises e, w') => (Raises e, w')
    end.

Definition raise {A} (e : Exn) : M A := fun w => (Raises e, w).

Definition lift {A} (o : Outcome A) : M A := fun w => (o, w).

Definition emit (ev : Event) : M unit :=
  fun w => (Returns tt, {| files := files w; trace := trace w ++ [ev] |}).

(** [try: body  except Exception as e: handler(e)] *)
Definition try_except {A} (body : M A) (handler : Exn -> M A) : M A :=
  fun w =>
    match body w with
    | (Returns a, w') => (Returns a, w')
    | (Raises e, w') => handler e w'
    end.

Definition answer {A} (a : Answer A) : M A :=
  match a with
  | Done x => ret x
  | Failed msg => raise (OtherError msg)
  end.

#[global] Instance M_ret : MRet M := @ret.
#[global] Instance M_bind : MBind M := fun A B f m => bind m f.

Definition join (sep : pystr) (parts : list pystr) : pystr :=
  match parts with
  | [] => []
  | p :: rest => p ++ concat (map (fun q => sep ++ q) rest)
  end.

Fixpoint starts_with (sub s : pystr) : bool :=
  match sub, s with
  | [], _ => true
  | a :: sub', b :: s' => (a =? b)%N && starts_with sub' s'
  | _ :: _, [] => false
  end.

(** [sub in s] *)
Fixpoint contains (sub s : pystr) : bool :=
  starts_with sub s ||
  match s with
  | [] => false
  | _ :: s' => contains sub s'
  end.

Definition pystr_eqb (a b : pystr) : bool := bool_decide (a = b).

(** Truth value of a list or tuple. *)
Definition nonempty {A} (l : list A) : bool :=
  match l with
  | [] => false
  | _ :: _ => true
  end.

(** [x in ids] on integers. *)
Definition py_in (x : Z) (ids : list Z) : bool := existsb (Z.eqb x) ids.

(** An f-string field holding an optional text. *)
Definition fmt_opt (s : option pystr) : pystr :=
  match s with
  | Some v => v
  | None => str "None"
  end.

Section Bot.

Variable rt : Runtime.
Variable env : Env.
Variable cfg : Config.

Definition log (level : Level) (msg : pystr) : M unit := emit (Log level msg).

Definition reply_text (text : pystr) : M unit := emit (ReplyText text).

Definition reply_html (text : pystr) : M unit := emit (ReplyHtml text).

(** ** [resize_image] *)

(** [Image.open(BytesIO(image_bytes))] *)
Definition Image_open (data : bytes) : M Image :=
  emit (ImageOpen data);; answer (image_open env data).

(** [img.thumbnail(box, Image.Resampling.LANCZOS)] *)
Definition thumbnail (img : Image) (box : Z * Z) : M Image :=
  emit (ImageThumbnail box);; answer (image_thumbnail env box img).

(** [img.save(output_buffer, format=img_format)] *)
Definition save (img : Image) (format : pystr) : M bytes :=
  emit (ImageSave format);; answer (image_save env img format).

(** The format line of [resize_image]. *)
Definition select_format (img_mode : pystr) : pystr :=
  if pystr_eqb img_mode (str "RGBA") || contains (str "P") img_mode
  then str "PNG" else str "JPEG".

(** The pair [(None, None)] of the source is [None] here, and a pair of a
    buffer and a format tag is [Some]. *)
Definition resize_image (image_bytes : bytes) : M (option (bytes * pystr)) :=
  try_except
    (img ← Image_open image_bytes;
     img ← thumbnail img (LABEL_WIDTH_PX, LABEL_HEIGHT_PX);
     let img_format := select_format (mode img) in
     output_buffer ← save img img_format;
     mret (Some (output_buffer, lower rt img_format)))
    (fun e =>
       log ERROR (str "Error resizing image: " ++ exn_str rt e);;
       mret None).

(** ** [print_image_cups] *)

(** [with tempfile.NamedTemporaryFile(suffix=..., delete=True) as temp_file]:
    the file is on disk while the body runs and is removed when the block is
    left, by a return or by an exception. *)
Definition NamedTemporaryFile {A} (suffix : pystr) (body : path -> M A) : M A :=
  fun w =>
    match tmp_create env suffix with
    | Failed msg => (Raises (OtherError msg), w)
    | Done name =>
        let w1 := {| files := {[name]} ∪ files w;
                     trace := trace w ++ [TempCreate name] |} in
        let '(r, w2) := body name w1 in
        (r, {| files := files w2 ∖ {[name]};
               trace := trace w2 ++ [TempDelete name] |})
    end.

(** [temp_file.write(data)] and [temp_file.flush()] *)
Definition write_flush (name : path) (data : bytes) : M unit :=
  emit (TempWrite name data);; answer (tmp_write env name data).

(** [subprocess.run(cmd, capture_output=True, text=True, check=True)] *)
Definition run_checked (cmd : list pystr) : M (pystr * pystr) :=
  emit (Run cmd);;
  match subprocess_run env cmd with
  | Exited rc out err =>
      if rc =? 0 then mret (out, err)
      else raise (CalledProcessError cmd rc out err)
  | NotStarted msg => raise (OtherError msg)
  end.

Definition lp_options (printer_name : pystr) (copies : Z) : list pystr :=
  [str "lp"]
  ++ (if truthy (CUPS_SERVER_HOST cfg)
      then [str "-h"; fmt_opt (CUPS_SERVER_HOST cfg)] else [])
  ++ [str "-d"; printer_name]
  ++ [str "-n"; str_of_Z copies]
  ++ [str "-o";
      str "media=Custom." ++ str_of_Z LABEL_WIDTH_INCHES ++ str "x"
        ++ str_of_Z LABEL_HEIGHT_INCHES ++ str "in"]
  ++ [str "-o"; str "fit-to-page"].

Definition print_image_cups (image_buffer : bytes) (printer_name : pystr)
    (copies : Z) (image_format : pystr) : M (bool * pystr) :=
  let lp_command := lp_options printer_name copies in
  try_except
    (NamedTemporaryFile (str "." ++ image_format) (fun temp_file =>
       write_flush temp_file image_buffer;;
       let lp_command := lp_command ++ [temp_file] in
       log INFO (str "Executing CUPS command: " ++ join (str " ") lp_command);;
       '(stdout, stderr) ← run_checked lp_command;
       log INFO (str "CUPS Output: " ++ stdout);;
       log INFO (str "CUPS Error Output: " ++ stderr);;
       mret (true, stdout)))
    (fun e =>
       match e with
       | CalledProcessError cmd returncode output stderr =>
           log ERROR (str "CUPS printing failed. Command: '"
                        ++ join (str " ") cmd ++ str "'");;
           log ERROR (str "Return code: " ++ str_of_Z returncode);;
           log ERROR (str "Output: " ++ output);;
           log ERROR (str "Stderr: " ++ stderr);;
           mret (false, stderr)
       | _ =>
           log ERROR (str "An unexpected error occurred during printing: "
                        ++ exn_str rt e);;
           mret (false, exn_str rt e)
       end).

(** ** The handlers *)

(** [photo[-1]] *)
Definition last_item {A} (l : list A) : M A :=
  match last l with
  | Some x => mret x
  | None => raise (OtherError (str "tuple index out of range"))
  end.

(** [get_file()] and [download_as_bytearray()] on the chosen size. *)
Definition get_file (p : PhotoSize) : M bytes :=
  emit (GetFile p);; answer (download env p).

Definition start (update : Update) : M unit :=
  let user := effective_user update in
  if nonempty (ALLOWED_USER_IDS cfg) && negb (py_in (id user) (ALLOWED_USER_IDS cfg)) then
    log WARNING (str "Unauthorized access attempt by user " ++ str_of_Z (id user)
                   ++ str " (" ++ fmt_opt (username user) ++ str ")");;
    reply_text (str "Sorry, you are not authorized to use this bot.")
  else
    reply_html (str "Hi " ++ mention_html user
                  ++ str "! Send me an image to print on the label printer.").

Definition handle_image (update : Update) : M unit :=
  let user := effective_user update in
  if nonempty (ALLOWED_USER_IDS cfg) && negb (py_in (id user) (ALLOWED_USER_IDS cfg)) then
    log WARNING (str "Unauthorized image received from user " ++ str_of_Z (id user)
                   ++ str " (" ++ fmt_opt (username user) ++ str ")");;
    reply_text (str "Sorry, you are not authorized to use this bot.")
  else if negb (nonempty (photo update)) then
    reply_text (str "Please send an image file.")
  else if negb (truthy (CUPS_PRINTER_NAME cfg)) then
    log ERROR (str "CUPS_PRINTER_NAME environment variable is not set.");;
    reply_text (str "Printer is not configured. Please contact the administrator.")
  else
    largest ← last_item (photo update);
    file_bytes ← get_file largest;
    copies ← lift (parse_copies rt (caption update));
    reply_text (str "Received image. Resizing and preparing to print "
                  ++ str_of_Z copies ++ str " cop"
                  ++ (if copies =? 1 then str "y" else str "ies") ++ str "...");;
    resized ← resize_image file_bytes;
    match resized with
    | None => reply_text (str "Failed to process the image.")
    | Some (resized_image_buffer, image_format) =>
        '(success, message) ←
          print_image_cups resized_image_buffer (fmt_opt (CUPS_PRINTER_NAME cfg))
            copies image_format;
        if success : bool then
          log INFO (str "Successfully sent image to printer "
                      ++ fmt_opt (CUPS_PRINTER_NAME cfg) ++ str " for user "
                      ++ str_of_Z (id user));;
          reply_text (str "Sent to printer! CUPS message: " ++ message)
        else
          log ERROR (str "Failed to print image for user " ++ str_of_Z (id user)
                       ++ str ". Error: " ++ message);;
          reply_text (str "Failed to send to printer. Error: " ++ message)
    end.

End Bot.

(** ** Notions of the specification *)

(** The authorization contract: the allow-list is empty or names the
    sender. *)
Definition authorized (allow_list : list Z) (sender : Z) : Prop :=
  allow_list = [] \/ sender ∈ allow_list.

(** Events of the stages after the checks of the handler: fetching the photo,
    image work, the temporary file, the print command. *)
Definition later_stage (ev : Event) : bool :=
  match ev with
  | Log _ _ | ReplyText _ | ReplyHtml _ => false
  | _ => true
  end.

(** The modes of Pillow images, with their bands. *)
Inductive PilMode :=
| Mode_1 | Mode_L | Mode_P | Mode_RGB | Mode_RGBA | Mode_CMYK | Mode_YCbCr
| Mode_LAB | Mode_HSV | Mode_I | Mode_F
| Mode_LA | Mode_PA | Mode_RGBX | Mode_RGBa | Mode_La | Mode_I16.

Definition mode_name (m : PilMode) : pystr :=
  str match m with
      | Mode_1 => "1" | Mode_L => "L" | Mode_P => "P" | Mode_RGB => "RGB"
      | Mode_RGBA => "RGBA" | Mode_CMYK => "CMYK" | Mode_YCbCr => "YCbCr"
      | Mode_LAB => "LAB" | Mode_HSV => "HSV" | Mode_I => "I" | Mode_F => "F"
      | Mode_LA => "LA" | Mode_PA => "PA" | Mode_RGBX => "RGBX"
      | Mode_RGBa => "RGBa" | Mode_La => "La" | Mode_I16 => "I;16"
      end.

(** An alpha band, straight or premultiplied. *)
Definition has_alpha (m : PilMode) : bool :=
  match m with
  | Mode_RGBA | Mode_LA | Mode_PA | Mode_RGBa | Mode_La => true
  | _ => false
  end.

Definition is_palette (m : PilMode) : bool :=
  match m with
  | Mode_P | Mode_PA => true
  | _ => false
  end.

(** The world after some more events. *)
Definition after (w : World) (evs : list Event) : World :=
  {| files := files w; trace := trace w ++ evs |}.

(** A field of ASCII digits, as the specification reads the allow-list, and
    the number it denotes. *)
Definition ascii_digits (s : pystr) : bool :=
  nonempty s && forallb (in_range 48 57) s.

Definition ascii_value (s : pystr) : Z :=
  fold_left (fun acc c => 10 * acc + (Z.of_N c - 48)) s 0.

(** A computation only adds events to the trace. *)
Definition extends {A} (m : M A) : Prop :=
  forall w, exists evs, trace (snd (m w)) = trace w ++ evs.

(** ** Sample inputs *)

Definition sample_world : World := {| files := ∅; trace := [] |}.

(** A world in which every library call succeeds and [lp] ends as given. *)
Definition sample_env (lp : RunResult) : Env := {|
  download := fun _ => Done [];
  image_open := fun _ => Done {| mode := str "RGB"; size := (640, 480) |};
  image_thumbnail := fun _ img => Done img;
  image_save := fun _ _ => Done [];
  tmp_create := fun suffix => Done (str "/tmp/tmpab12cd" ++ suffix);
  tmp_write := fun _ _ => Done tt;
  subprocess_run := fun _ => lp
|}.

Definition sample_config (printer : option pystr) (ids : list Z) : Config := {|
  TELEGRAM_BOT_TOKEN := Some (str "token");
  CUPS_PRINTER_NAME := printer;
  CUPS_SERVER_HOST := None;
  ALLOWED_USER_IDS := ids
|}.

Definition sample_update (sender : Z) : Update := {|
  effective_user := {| id := sender; username := Some (str "ann");
                       mention_html := str "ann" |};
  photo := [{| file_id := str "small" |}; {| file_id := str "large" |}];
  caption := Some (str "x2")
|}.

(** ** Loading the configuration

    The module-level assignments of [bot.py], from the environment as it
    stands after [load_dotenv()]. *)

Definition getenv (environ : gmap pystr pystr) (name : string) : option pystr :=
  environ !! str name.

Definition load_config (rt : Runtime) (environ : gmap pystr pystr) : Outcome Config :=
  let token := getenv environ "TELEGRAM_BOT_TOKEN" in
  let printer := getenv environ "CUPS_PRINTER_NAME" in
  let host := getenv environ "CUPS_SERVER_HOST" in
  obind (allowed_user_ids rt (getenv environ "ALLOWED_USER_IDS")) (fun ids =>
  Returns {| TELEGRAM_BOT_TOKEN := token; CUPS_PRINTER_NAME := printer;
             CUPS_SERVER_HOST := host; ALLOWED_USER_IDS := ids |}).

(** ** [error_handler] and [main] *)

Definition error_handler : M unit :=
  emit (Log ERROR (str "Exception while handling an update:")).

Inductive Callback := cb_start | cb_handle_image | cb_error_handler.

(** The filters of [telegram.ext.filters] that [main] combines. *)
Inductive Filter :=
| PHOTO
| COMMAND
| FilterAnd (f g : Filter)
| FilterNot (f : Filter).

(** What [main] does, in order. *)
Inductive Startup :=
| LogCritical (msg : pystr)
| LogWarning (msg : pystr)
| LogInfo (msg : pystr)
| BuildApplication (token : pystr)
| AddCommandHandler (command : pystr) (callback : Callback)
| AddMessageHandler (filter : Filter) (callback : Callback)
| AddErrorHandler (callback : Callback)
| RunPolling.

(** An f-string field holding a list of integers. *)
Definition fmt_ids (ids : list Z) : pystr :=
  str "[" ++ join (str ", ") (map str_of_Z ids) ++ str "]".

Definition main (cfg : Config) : list Startup :=
  if negb (truthy (TELEGRAM_BOT_TOKEN cfg)) then
    [LogCritical (str "TELEGRAM_BOT_TOKEN environment variable is not set. Exiting.")]
  else
    (if negb (truthy (CUPS_PRINTER_NAME cfg)) then
       [LogWarning
          (str "CUPS_PRINTER_NAME environment variable is not set. Printing will fail.")]
     else [])
    ++ (if nonempty (ALLOWED_USER_IDS cfg) then
          [LogInfo (str "Bot access restricted to user IDs: "
                      ++ fmt_ids (ALLOWED_USER_IDS cfg))]
        else
          [LogWarning (str "ALLOWED_USER_IDS is not set. The bot is open to everyone!")])
    ++ [BuildApplication (fmt_opt (TELEGRAM_BOT_TOKEN cfg));
        AddCommandHandler (str "start") cb_start;
        AddMessageHandler (FilterAnd PHOTO (FilterNot COMMAND)) cb_handle_image;
        AddErrorHandler cb_error_handler;
        LogInfo (str "Starting bot polling...");
        RunPolling].

(** ** Reading a trace *)

Definition reply_of (ev : Event) : option pystr :=
  match ev with
  | ReplyText text | ReplyHtml text => Some text
  | _ => None
  end.

(** The replies sent to the chat, in order. *)
Definition replies (evs : list Event) : list pystr := omap reply_of evs.

Definition command_of (ev : Event) : option (list pystr) :=
  match ev with
  | Run cmd => Some cmd
  | _ => None
  end.

(** The command lines of the processes spawned, in order. *)
Definition runs (evs : list Event) : list (list pystr) := omap command_of evs.

Definition fetch_of (ev : Event) : option PhotoSize :=
  match ev with
  | GetFile p => Some p
  | _ => None
  end.

(** The photo sizes fetched from Telegram, in order. *)
Definition fetched (evs : list Event) : list PhotoSize := omap fetch_of evs.

(** Events that touch the disk or spawn a process. *)
Definition on_disk (ev : Event) : bool :=
  match ev with
  | TempCreate _ | TempWrite _ _ | TempDelete _ | Run _ => true
  | _ => false
  end.

(** A text without a decimal digit. *)
Definition digitless (rt : Runtime) (s : pystr) : Prop :=
  existsb (is_decimal rt) s = false.

(** Of two matches the one that starts first, the left one on a tie. *)
Definition leftmost (a b : option Match) : option Match :=
  match a, b with
  | Some ma, Some mb => if (m_start ma <=? m_start mb)%nat then Some ma else Some mb
  | Some ma, None => Some ma
  | None, _ => b
  end.

(** [c.lower()] of one Latin-1 character. *)
Definition lower1 (c : N) : N :=
  if in_range 65 90 c || (in_range 192 222 c && negb (c =? 215)%N)
  then (c + 32)%N else c.

Definition is_registration (ev : Startup) : bool :=
  match ev with
  | AddCommandHandler _ _ | AddMessageHandler _ _ | AddErrorHandler _ => true
  | _ => false
  end.

(** The handlers that [main] has registered, in order. *)
Definition registrations (evs : list Startup) : list Startup :=
  filter is_registration evs.

(** ** More sample inputs *)

(** A world in which the photo cannot be decoded. *)
Definition corrupt_env : Env := {|
  download := fun _ => Done [];
  image_open := fun _ => Failed (str "cannot identify image file");
  image_thumbnail := fun _ img => Done img;
  image_save := fun _ _ => Done [];
  tmp_create := fun suffix => Done (str "/tmp/tmpab12cd" ++ suffix);
  tmp_write := fun _ _ => Done tt;
  subprocess_run := fun _ => NotStarted []
|}.

Definition sample_environ (ids : string) : gmap pystr pystr :=
  {[ str "TELEGRAM_BOT_TOKEN" := str "token";
     str "CUPS_PRINTER_NAME" := str "label";
     str "ALLOWED_USER_IDS" := str ids ]}.

(** ** Pillow's side of the normalizer *)

(** Modelled from the spec: the rounding inside [Image.thumbnail], which is
    not in [bot.py]: the exact quotient [num / den] rounded down or up, as
    [prefer_floor] decides between the two, and raised to 1. *)
Definition round_aspect (num den : Z) (prefer_floor : Z -> Z -> bool) : Z :=
  let lo := num / den in
  let hi := if num mod den =? 0 then lo else lo + 1 in
  Z.max (if prefer_floor lo hi then lo else hi) 1.

(** Modelled from the spec: the size that [img.thumbnail(box)] leaves, which
    is computed inside Pillow and is not in [bot.py]. Section 4.2 has the
    image downscaled so that it fits the box on both axes with its aspect
    ratio preserved, and never upscaled when it is smaller than the box. The
    side that the box pins is the side of the box; the other side is the exact
    quotient rounded down or up, whichever leaves the ratio closer to the
    source's (down on a tie), and at least one pixel, as Pillow documents,
    here in exact arithmetic. *)
Definition thumbnail_size (box sz : Z * Z) : Z * Z :=
  let '(x, y) := box in
  let '(width, height) := sz in
  if (width <=? x) && (height <=? y) then sz
  else if width * y <=? x * height then
    (round_aspect (y * width) height
       (fun lo hi => Z.abs (width * y - lo * height) <=? Z.abs (width * y - hi * height)),
     y)
  else
    (x,
     round_aspect (x * height) width
       (fun lo hi =>
          (lo =? 0)
          || (Z.abs (width * lo - x * height) * hi
              <=? Z.abs (width * hi - x * height) * lo))).

(** A world whose [thumbnail] keeps the mode and leaves that size. *)
Definition thumbnail_follows (env : Env) : Prop :=
  forall box img resized,
    image_thumbnail env box img = Done resized ->
    mode resized = mode img /\ size resized = thumbnail_size box (size img).

(** The modes that Pillow's JPEG encoder writes; it refuses the others. *)
Definition jpeg_writes (img_mode : pystr) : bool :=
  existsb (pystr_eqb img_mode)
    [str "1"; str "L"; str "RGB"; str "RGBX"; str "CMYK"; str "YCbCr"].

(** A world in which the photo decodes to [img], [thumbnail] follows the rule
    above and the JPEG encoder refuses the modes it cannot write. *)
Definition pillow_env (img : Image) : Env := {|
  download := fun _ => Done [];
  image_open := fun _ => Done img;
  image_thumbnail := fun box im =>
    Done {| mode := mode im; size := thumbnail_size box (size im) |};
  image_save := fun im format =>
    if pystr_eqb format (str "JPEG") && negb (jpeg_writes (mode im))
    then Failed (str "cannot write mode " ++ mode im ++ str " as JPEG")
    else Done [];
  tmp_create := fun suffix => Done (str "/tmp/tmpab12cd" ++ suffix);
  tmp_write := fun _ _ => Done tt;
  subprocess_run := fun _ => Exited 0 [] []
|}.

(** * Proofs *)

(** ** The copy-count parser *)

Section ParseCopies.

Variable rt : Runtime.

(** Whatever the matcher returns was produced by its continuation. *)
Lemma star_greedy_from_k {A} (P : A -> Prop) p (k : cursor -> option A) :
  (forall cu a, k cu = Some a -> P a) ->
  forall s prev pos g a, star_greedy p k prev s pos g = Some a -> P a.
Proof.
  intros Hk s. induction s as [|x s IH]; intros prev pos g a; simpl.
  - apply Hk.
  - destruct (p x); [|apply Hk].
    destruct (star_greedy p k (Some x) s (S pos) g) eqn:E.
    + intros [= <-]. eapply IH, E.
    + apply Hk.
Qed.

Lemma rmatch_from_k {A} (P : A -> Prop) r :
  forall cu (k : cursor -> option A),
    (forall cu' a, k cu' = Some a -> P a) ->
    forall a, rmatch rt r cu k = Some a -> P a.
Proof.
  induction r as [|c|p| |r1 IH1 r2 IH2|r1 IH1 r2 IH2|p|r IH];
    intros cu k Hk a; simpl.
  - apply Hk.
  - destruct (c_rest cu) as [|x s]; [discriminate|].
    destruct (x =? c)%N; [apply Hk|discriminate].
  - destruct (c_rest cu) as [|x s]; [discriminate|].
    destruct (p x); [apply Hk|discriminate].
  - destruct (at_boundary rt cu); [apply Hk|discriminate].
  - apply IH1. intros cu' a'. apply IH2, Hk.
  - destruct (rmatch rt r1 cu k) eqn:E.
    + intros [= <-]. eapply IH1; eauto.
    + apply IH2, Hk.
  - apply star_greedy_from_k, Hk.
  - apply IH. intros cu' a'. apply Hk.
Qed.

(** The equations of the matcher on the composite forms. *)
Lemma rmatch_Seq {A} r1 r2 cu (k : cursor -> option A) :
  rmatch rt (Seq r1 r2) cu k = rmatch rt r1 cu (fun cu' => rmatch rt r2 cu' k).
Proof. reflexivity. Qed.

Lemma rmatch_Alt {A} r1 r2 cu (k : cursor -> option A) :
  rmatch rt (Alt r1 r2) cu k =
  match rmatch rt r1 cu k with
  | Some m => Some m
  | None => rmatch rt r2 cu k
  end.
Proof. reflexivity. Qed.

Lemma rmatch_Group {A} r cu (k : cursor -> option A) :
  rmatch rt (Group r) cu k = rmatch rt r cu (fun cu' => k (capture cu cu')).
Proof. reflexivity. Qed.

(** A match found at an offset starts at that offset. *)
Lemma match_here_start r prev s pos m :
  match_here rt r prev s pos = Some m -> m_start m = pos.
Proof.
  unfold match_here.
  apply (rmatch_from_k (fun m => m_start m = pos)).
  now intros cu' a [= <-].
Qed.

(** Group 1 takes part in every match of the pattern. *)
Lemma match_here_group prev s pos m :
  match_here rt (copies_regex rt) prev s pos = Some m ->
  exists g, m_group1 m = Some g.
Proof.
  unfold match_here, copies_regex. rewrite rmatch_Seq.
  apply (rmatch_from_k (fun m => exists g, m_group1 m = Some g)).
  intros cu' a. rewrite rmatch_Group.
  apply (rmatch_from_k (fun m => exists g, m_group1 m = Some g)).
  intros cu'' a' [= <-]. simpl. eauto.
Qed.

Lemma search_from_group s : forall prev pos m,
  search_from rt (copies_regex rt) prev s pos = Some m ->
  exists g, m_group1 m = Some g.
Proof.
  induction s as [|c s IH]; intros prev pos m; simpl;
    destruct (match_here rt (copies_regex rt) prev _ pos) eqn:E;
    try discriminate.
  - intros [= <-]. eapply match_here_group, E.
  - intros [= <-]. eapply match_here_group, E.
  - apply IH.
Qed.

(** [int] raises nothing but [ValueError]. *)
Lemma py_int_cases s :
  (exists v, py_int rt s = Returns v) \/ (exists msg, py_int rt s = Raises (ValueError msg)).
Proof.
  unfold py_int. destruct s as [|c s]; [right; eauto|].
  destruct (digits_value rt 0 (c :: s)); [|right; eauto].
  destruct (too_many_digits rt _); [right|left]; eauto.
Qed.

End ParseCopies.

(** C2. [parse_copies] is total on every caption, [None] and the empty text
    included: it raises nothing and returns an integer that is at least 1. *)
Theorem parse_copies_total_ge_1 (rt : Runtime) (caption : option pystr) :
  exists n, parse_copies rt caption = Returns n /\ 1 <= n.
Proof.
  unfold parse_copies.
  destruct caption as [[|c s]|]; try (exists 1; split; [reflexivity|lia]).
  destruct (re_search rt (copies_regex rt) _) as [m|] eqn:E;
    [|exists 1; split; [reflexivity|lia]].
  apply search_from_group in E as [g ->].
  destruct (py_int_cases rt g) as [[v ->]|[msg ->]]; simpl.
  - exists (Z.max 1 v). split; [reflexivity|lia].
  - exists 1. split; [reflexivity|lia].
Qed.

(** C8. The seven captions of the specification: x3 gives 3, copies=2 gives 2,
    COPIES = 5 gives 5, the empty text and an absent caption give 1, x0 is
    raised to 1, and hello, which has no pattern, gives 1. *)
Theorem parse_copies_examples (rt : Runtime) :
  parse_copies rt (Some (str "x3")) = Returns 3 /\
  parse_copies rt (Some (str "copies=2")) = Returns 2 /\
  parse_copies rt (Some (str "COPIES = 5")) = Returns 5 /\
  parse_copies rt (Some (str "")) = Returns 1 /\
  parse_copies rt None = Returns 1 /\
  parse_copies rt (Some (str "x0")) = Returns 1 /\
  parse_copies rt (Some (str "hello")) = Returns 1.
Proof.
  repeat split; reflexivity.
Qed.

(** *** The multiplier alternative against the plain scan *)

Section Multiplier.

Variable rt : Runtime.

Lemma take_take_digits s :
  take (length (take_digits rt s)) s = take_digits rt s.
Proof.
  induction s as [|c s IH]; simpl; [reflexivity|].
  destruct (is_decimal rt c); simpl; [now rewrite IH|reflexivity].
Qed.

(** With a continuation that accepts everything, the greedy star stops after
    the longest run of digits. *)
Lemma star_digits {A} (k : cursor -> option A) :
  (forall cu, is_Some (k cu)) ->
  forall s prev pos g, exists prev',
    star_greedy (is_decimal rt) k prev s pos g =
    k {| c_prev := prev'; c_rest := drop (length (take_digits rt s)) s;
         c_pos := pos + length (take_digits rt s); c_group := g |}.
Proof.
  intros Hk s. induction s as [|x s IH]; intros prev pos g; simpl.
  - exists prev. now rewrite Nat.add_0_r.
  - destruct (is_decimal rt x); simpl.
    + destruct (IH (Some x) (S pos) g) as [prev' ->].
      exists prev'. rewrite <- Nat.add_succ_comm.
      destruct (Hk {| c_prev := prev'; c_rest := drop (length (take_digits rt s)) s;
                      c_pos := S pos + length (take_digits rt s); c_group := g |})
        as [a ->]. reflexivity.
    + exists prev. now rewrite Nat.add_0_r.
Qed.

Lemma match_here_x prev s pos :
  match_here rt (x_alternative rt) prev s pos =
  match x_digits_here rt s with
  | Some ds => Some {| m_start := pos; m_group1 := Some ds |}
  | None => None
  end.
Proof.
  unfold match_here, x_alternative, x_digits_here.
  generalize (chr "x"). intros cx.
  destruct s as [|c s]; [reflexivity|]. simpl.
  destruct (c =? cx)%N; [|reflexivity].
  destruct s as [|d s]; [reflexivity|]. simpl.
  destruct (is_decimal rt d); [|reflexivity].
  match goal with |- star_greedy _ ?k _ _ _ _ = _ =>
    destruct (star_digits k (fun cu => ltac:(eexists; reflexivity))
                s (Some d) (S (S pos)) None) as [prev' ->]
  end.
  cbn [c_pos c_rest]. do 3 f_equal.
  replace (S (S pos) + length (take_digits rt s) - S pos)%nat
    with (S (length (take_digits rt s))) by lia.
  simpl. now rewrite take_take_digits.
Qed.

(** The pattern tries the multiplier first, then [copies=]. *)
Lemma match_here_alternatives prev s pos :
  match_here rt (copies_regex rt) prev s pos =
  match match_here rt (x_alternative rt) prev s pos with
  | Some m => Some m
  | None => match_here rt (copies_alternative rt) prev s pos
  end.
Proof. reflexivity. Qed.

Lemma search_first_x s : forall prev pos i ds,
  first_x_digits rt s = Some (i, ds) ->
  match search_from rt (copies_alternative rt) prev s pos with
  | Some m => (m_start m <? pos + i)%nat
  | None => false
  end = false ->
  search_from rt (copies_regex rt) prev s pos =
  Some {| m_start := (pos + i)%nat; m_group1 := Some ds |}.
Proof.
  induction s as [|c s IH]; intros prev pos i ds Hx Hc.
  - discriminate.
  - cbn [search_from first_x_digits] in *.
    rewrite match_here_alternatives, match_here_x.
    destruct (x_digits_here rt (c :: s)) as [ds0|].
    + injection Hx as <- <-. now rewrite Nat.add_0_r.
    + destruct (first_x_digits rt s) as [[i' ds']|]; [|discriminate].
      injection Hx as <- <-.
      destruct (match_here rt (copies_alternative rt) prev (c :: s) pos) as [m|] eqn:E.
      * apply match_here_start in E. rewrite E in Hc.
        apply Nat.ltb_ge in Hc. lia.
      * rewrite (IH (Some c) (S pos) i' ds' eq_refl).
        -- do 2 f_equal. lia.
        -- now rewrite Nat.add_succ_comm.
Qed.

Lemma digits_value_take_digits s : forall acc,
  exists v, digits_value rt acc (take_digits rt s) = Some v.
Proof.
  induction s as [|c s IH]; intros acc; simpl; [eauto|].
  unfold is_decimal. destruct (decimal_value rt c) as [d|] eqn:E; simpl; [|eauto].
  rewrite E. apply IH.
Qed.

Lemma first_x_digits_run s : forall i ds,
  first_x_digits rt s = Some (i, ds) ->
  ds <> [] /\ exists s', ds = take_digits rt s'.
Proof.
  induction s as [|c s IH]; intros i ds; [discriminate|].
  cbn [first_x_digits].
  destruct (x_digits_here rt (c :: s)) as [ds0|] eqn:E.
  - intros [= <- <-]. unfold x_digits_here in E.
    destruct (c =? chr "x")%N; [|discriminate].
    destruct (take_digits rt s) eqn:T; [discriminate|].
    injection E as <-. split; [discriminate|]. exists s. now rewrite T.
  - destruct (first_x_digits rt s) as [[i' ds']|]; [|discriminate].
    intros [= <- <-]. eapply IH; eauto.
Qed.

End Multiplier.

(** C10, as amended. The multiplier needs no word boundary: when no
    [copies=<N>] match starts earlier, the first [x] of the lowered caption
    that is followed by digits gives the copy count, wherever it stands in
    a word: the value of its digits, raised to 1, or 1 when [int] refuses the
    digits as too many. *)
Theorem parse_copies_first_x (rt : Runtime) (caption : pystr) (i : nat) (ds : pystr) :
  first_x_digits rt (lower rt caption) = Some (i, ds) ->
  copies_match_before rt (lower rt caption) i = false ->
  exists v, digits_value rt 0 ds = Some v /\
    parse_copies rt (Some caption) =
    Returns (if too_many_digits rt (length ds) then 1 else Z.max 1 v).
Proof.
  intros Hx Hc.
  destruct (first_x_digits_run rt _ _ _ Hx) as [Hne [s' Hds]].
  destruct (digits_value_take_digits rt s' 0) as [v Hv]. rewrite <- Hds in Hv.
  exists v. split; [exact Hv|].
  unfold parse_copies. destruct caption as [|c s]; [discriminate|].
  unfold re_search.
  rewrite (search_first_x rt _ None 0%nat i ds Hx Hc). cbn [m_group1].
  unfold py_int. destruct ds as [|d ds]; [contradiction|].
  rewrite Hv. now destruct (too_many_digits rt _).
Qed.

Lemma parse_copies_first_x_witness :
  exists v, digits_value latin1_runtime 0 (str "3") = Some v /\
    parse_copies latin1_runtime (Some (str "box3")) =
    Returns (if too_many_digits latin1_runtime (length (str "3")) then 1 else Z.max 1 v).
Proof.
  apply (parse_copies_first_x latin1_runtime (str "box3") 2%nat (str "3")); reflexivity.
Defined.

(** The caption box3 gives 3 on every runtime. *)
Lemma parse_copies_box3 (rt : Runtime) :
  parse_copies rt (Some (str "box3")) = Returns 3.
Proof. reflexivity. Qed.

(** C10, as stated, fails: an earlier [copies=<N>] wins over the first
    multiplier. In the caption below the first x with digits is x3, and the
    parser returns 2. *)
Lemma parse_copies_first_x_counterexample :
  first_x_digits latin1_runtime (lower latin1_runtime (str "copies=2 x3"))
    = Some (9%nat, str "3") /\
  digits_value latin1_runtime 0 (str "3") = Some 3 /\
  parse_copies latin1_runtime (Some (str "copies=2 x3")) = Returns 2 /\
  parse_copies latin1_runtime (Some (str "copies=2 x3")) <> Returns (Z.max 1 3).
Proof.
  repeat split; try reflexivity. discriminate.
Qed.

(** ** The effects of the handlers *)

(** Runs the monadic code of a goal as far as its shape is known. *)
Ltac run_M :=
  repeat first
    [ progress unfold log, reply_text, reply_html, emit, answer, lift, raise,
        try_except, after
    | progress unfold mbind, M_bind, bind, mret, M_ret, ret
    | progress cbn beta iota delta [files trace fst snd negb nonempty] ].

Section Handlers.

Variable rt : Runtime.
Variable env : Env.
Variable cfg : Config.

Lemma gate_authorized user :
  nonempty (ALLOWED_USER_IDS cfg) && negb (py_in (id user) (ALLOWED_USER_IDS cfg)) = false
  <-> authorized (ALLOWED_USER_IDS cfg) (id user).
Proof.
  unfold authorized, py_in. destruct (ALLOWED_USER_IDS cfg) as [|a l] eqn:E.
  - simpl. tauto.
  - cbn [nonempty andb]. rewrite negb_false_iff, existsb_exists. split.
    + intros (x & Hin & Hx). right. apply Z.eqb_eq in Hx. subst x.
      now apply list_elem_of_In.
    + intros [?|Hin]; [discriminate|]. exists (id user).
      split; [now apply list_elem_of_In|apply Z.eqb_refl].
Qed.

Lemma gate_unauthorized user :
  ~ authorized (ALLOWED_USER_IDS cfg) (id user) ->
  nonempty (ALLOWED_USER_IDS cfg) && negb (py_in (id user) (ALLOWED_USER_IDS cfg)) = true.
Proof.
  intros H. apply not_false_iff_true. now rewrite gate_authorized.
Qed.

Lemma start_denied update w :
  ~ authorized (ALLOWED_USER_IDS cfg) (id (effective_user update)) ->
  start cfg update w =
  (Returns tt,
   after w [Log WARNING (str "Unauthorized access attempt by user "
                           ++ str_of_Z (id (effective_user update)) ++ str " ("
                           ++ fmt_opt (username (effective_user update)) ++ str ")");
            ReplyText (str "Sorry, you are not authorized to use this bot.")]).
Proof.
  intros H. unfold start. rewrite (gate_unauthorized _ H).
  run_M. now rewrite <- app_assoc.
Qed.

Lemma start_admitted update w :
  authorized (ALLOWED_USER_IDS cfg) (id (effective_user update)) ->
  start cfg update w =
  (Returns tt,
   after w [ReplyHtml (str "Hi " ++ mention_html (effective_user update)
                         ++ str "! Send me an image to print on the label printer.")]).
Proof.
  intros H. unfold start. apply gate_authorized in H. now rewrite H.
Qed.

Lemma handle_image_denied update w :
  ~ authorized (ALLOWED_USER_IDS cfg) (id (effective_user update)) ->
  handle_image rt env cfg update w =
  (Returns tt,
   after w [Log WARNING (str "Unauthorized image received from user "
                           ++ str_of_Z (id (effective_user update)) ++ str " ("
                           ++ fmt_opt (username (effective_user update)) ++ str ")");
            ReplyText (str "Sorry, you are not authorized to use this bot.")]).
Proof.
  intros H. unfold handle_image. rewrite (gate_unauthorized _ H).
  run_M. now rewrite <- app_assoc.
Qed.

Lemma handle_image_no_photo update w :
  authorized (ALLOWED_USER_IDS cfg) (id (effective_user update)) ->
  photo update = [] ->
  handle_image rt env cfg update w =
  (Returns tt, after w [ReplyText (str "Please send an image file.")]).
Proof.
  intros H Hp. unfold handle_image. apply gate_authorized in H. now rewrite H, Hp.
Qed.

Lemma handle_image_no_printer update w :
  authorized (ALLOWED_USER_IDS cfg) (id (effective_user update)) ->
  photo update <> [] ->
  truthy (CUPS_PRINTER_NAME cfg) = false ->
  handle_image rt env cfg update w =
  (Returns tt,
   after w [Log ERROR (str "CUPS_PRINTER_NAME environment variable is not set.");
            ReplyText (str "Printer is not configured. Please contact the administrator.")]).
Proof.
  intros H Hp Hc. unfold handle_image. apply gate_authorized in H. rewrite H, Hc.
  destruct (photo update); [contradiction|].
  run_M. now rewrite <- app_assoc.
Qed.

End Handlers.

(** *** The trace only grows *)

Section Extends.

Variable rt : Runtime.
Variable env : Env.
Variable cfg : Config.

Lemma extends_ret {A} (a : A) : extends (mret a : M A).
Proof. intros w. exists []. run_M. now rewrite app_nil_r. Qed.

Lemma extends_raise {A} e : extends (raise e : M A).
Proof. intros w. exists []. run_M. now rewrite app_nil_r. Qed.

Lemma extends_lift {A} (o : Outcome A) : extends (lift o).
Proof. intros w. exists []. run_M. now rewrite app_nil_r. Qed.

Lemma extends_emit ev : extends (emit ev).
Proof. intros w. now exists [ev]. Qed.

Lemma extends_answer {A} (a : Answer A) : extends (answer a).
Proof. destruct a; [apply extends_ret|apply extends_raise]. Qed.

Lemma extends_bind {A B} (m : M A) (f : A -> M B) :
  extends m -> (forall a, extends (f a)) -> extends (m ≫= f).
Proof.
  intros Hm Hf w. run_M. destruct (Hm w) as [evs Hevs].
  destruct (m w) as [[a|e] w1]; cbn [snd] in *.
  - destruct (Hf a w1) as [evs' Hevs']. exists (evs ++ evs').
    now rewrite Hevs', Hevs, app_assoc.
  - now exists evs.
Qed.

Lemma extends_try {A} (body : M A) handler :
  extends body -> (forall e, extends (handler e)) -> extends (try_except body handler).
Proof.
  intros Hb Hh w. run_M. destruct (Hb w) as [evs Hevs].
  destruct (body w) as [[a|e] w1]; cbn [snd] in *.
  - now exists evs.
  - destruct (Hh e w1) as [evs' Hevs']. exists (evs ++ evs').
    now rewrite Hevs', Hevs, app_assoc.
Qed.

Lemma extends_with {A} suffix (body : path -> M A) :
  (forall name, extends (body name)) -> extends (NamedTemporaryFile env suffix body).
Proof.
  intros Hb w. unfold NamedTemporaryFile.
  destruct (tmp_create env suffix) as [name|msg].
  - match goal with |- context [body name ?w1] =>
      destruct (Hb name w1) as [evs Hevs]; destruct (body name w1) as [r w2]
    end.
    cbn [snd trace] in *. exists ([TempCreate name] ++ evs ++ [TempDelete name]).
    rewrite Hevs. now rewrite <- !app_assoc.
  - exists []. cbn [snd]. now rewrite app_nil_r.
Qed.

Lemma bind_assoc {A B C} (m : M A) (f : A -> M B) (g : B -> M C) w :
  ((m ≫= f) ≫= g) w = (m ≫= (fun a => f a ≫= g)) w.
Proof. run_M. now destruct (m w) as [[a|e] w1]. Qed.

Lemma ret_bind {A B} (a : A) (f : A -> M B) w : (mret a ≫= f) w = f a w.
Proof. reflexivity. Qed.

(** The first event of a computation that starts by emitting one. *)
Lemma emit_first {A} ev (k : unit -> M A) w :
  extends (k tt) ->
  exists evs, trace (snd ((emit ev ≫= k) w)) = trace w ++ ev :: evs.
Proof.
  intros Hk. run_M.
  destruct (Hk {| files := files w; trace := trace w ++ [ev] |}) as [evs ->].
  exists evs. cbn [trace]. now rewrite <- app_assoc.
Qed.

End Extends.

(** Applies the rules above along the structure of the code. *)
Ltac extends_tac :=
  repeat first
    [ apply extends_ret | apply extends_raise | apply extends_lift
    | apply extends_emit | apply extends_answer
    | apply extends_bind; [|intros ?]
    | apply extends_try; [|intros ?]
    | apply extends_with; intros ?
    | match goal with
      | |- extends (match ?x with _ => _ end) => destruct x
      end ].

Section Stages.

Variable rt : Runtime.
Variable env : Env.
Variable cfg : Config.

Lemma extends_resize_image data : extends (resize_image rt env data).
Proof.
  unfold resize_image, Image_open, thumbnail, save, log. extends_tac.
Qed.

Lemma extends_print_image_cups buf printer copies fmt :
  extends (print_image_cups rt env cfg buf printer copies fmt).
Proof.
  unfold print_image_cups, write_flush, run_checked, log. extends_tac.
Qed.

(** An admitted sender with a photo and a printer: the handler goes on to
    fetch the largest photo. *)
Lemma handle_image_proceeds update w :
  authorized (ALLOWED_USER_IDS cfg) (id (effective_user update)) ->
  photo update <> [] ->
  truthy (CUPS_PRINTER_NAME cfg) = true ->
  exists largest evs,
    last (photo update) = Some largest /\
    trace (snd (handle_image rt env cfg update w)) = trace w ++ GetFile largest :: evs.
Proof.
  intros H Hp Hc. unfold handle_image. apply gate_authorized in H. rewrite H, Hc.
  destruct (last (photo update)) as [largest|] eqn:El;
    [|now apply last_None in El].
  exists largest. destruct (photo update) as [|p l]; [contradiction|].
  cbn [nonempty negb]. unfold last_item. rewrite El.
  rewrite ret_bind. unfold get_file. rewrite bind_assoc.
  match goal with |- context [(emit ?ev ≫= ?f) w] =>
    destruct (emit_first ev f w) as [evs Hevs]
  end.
  - unfold reply_text, log. extends_tac;
      try apply extends_resize_image; try apply extends_print_image_cups.
    all: extends_tac.
  - exists evs. split; [reflexivity|exact Hevs].
Qed.

End Stages.

(** ** The authorization gate *)

(** C1. Both handlers admit the sender when the allow-list is empty or names
    the sender, and deny every other sender. An admitted sender gets the
    welcome from [start], and [handle_image] goes on to its next stage; a
    denied sender gets the rejection reply from either handler, after a
    warning in the log, and nothing else happens. *)
Theorem authorization_gate (rt : Runtime) (env : Env) (cfg : Config)
    (update : Update) (w : World) :
  let user := effective_user update in
  let rejection := ReplyText (str "Sorry, you are not authorized to use this bot.") in
  (authorized (ALLOWED_USER_IDS cfg) (id user) ->
     start cfg update w =
       (Returns tt,
        after w [ReplyHtml (str "Hi " ++ mention_html user
                   ++ str "! Send me an image to print on the label printer.")]) /\
     exists ev evs,
       trace (snd (handle_image rt env cfg update w)) = trace w ++ ev :: evs /\
       (ev = ReplyText (str "Please send an image file.") \/
        ev = Log ERROR (str "CUPS_PRINTER_NAME environment variable is not set.") \/
        exists largest, ev = GetFile largest)) /\
  (~ authorized (ALLOWED_USER_IDS cfg) (id user) ->
     (exists warning,
        start cfg update w = (Returns tt, after w [Log WARNING warning; rejection])) /\
     (exists warning,
        handle_image rt env cfg update w =
          (Returns tt, after w [Log WARNING warning; rejection]))).
Proof.
  intros user rejection. split; intros H.
  - split; [now apply start_admitted|].
    destruct (photo update) as [|p l] eqn:Hp.
    + rewrite (handle_image_no_photo rt env cfg update w H Hp).
      eexists _, []. split; [reflexivity|]. now left.
    + destruct (truthy (CUPS_PRINTER_NAME cfg)) eqn:Hc.
      * destruct (handle_image_proceeds rt env cfg update w H) as (largest & evs & _ & E);
          [now rewrite Hp|exact Hc|].
        exists (GetFile largest), evs. split; [exact E|]. right. right. eauto.
      * rewrite (handle_image_no_printer rt env cfg update w H); [|now rewrite Hp|exact Hc].
        eexists _, [_]. split; [reflexivity|]. right. now left.
  - split; eexists.
    + now apply start_denied.
    + now apply handle_image_denied.
Qed.

Lemma authorization_gate_witness :
  (start (sample_config None [1; 2]) (sample_update 2) sample_world =
     (Returns tt,
      after sample_world
        [ReplyHtml (str "Hi ann! Send me an image to print on the label printer.")])) /\
  (exists warning,
     handle_image latin1_runtime (sample_env (Exited 0 [] []))
       (sample_config None [1; 2]) (sample_update 3) sample_world =
     (Returns tt,
      after sample_world
        [Log WARNING warning;
         ReplyText (str "Sorry, you are not authorized to use this bot.")])).
Proof.
  split.
  - apply (authorization_gate latin1_runtime (sample_env (Exited 0 [] []))
             (sample_config None [1; 2]) (sample_update 2) sample_world).
    unfold authorized. compute_done.
  - apply (authorization_gate latin1_runtime (sample_env (Exited 0 [] []))
             (sample_config None [1; 2]) (sample_update 3) sample_world).
    unfold authorized. compute_done.
Defined.

(** ** The printer check *)

(** C7, as amended. Without a printer name [handle_image] never reaches a
    later stage: it returns after replies and log entries only, so it fetches
    nothing, does no image work and spawns no process; and when the sender is
    admitted and the message has a photo, what it does is log the error and
    reply that the printer is not configured. *)
Theorem no_printer_no_dispatch (rt : Runtime) (env : Env) (cfg : Config)
    (update : Update) (w : World) :
  truthy (CUPS_PRINTER_NAME cfg) = false ->
  exists evs,
    handle_image rt env cfg update w = (Returns tt, after w evs) /\
    existsb later_stage evs = false /\
    (authorized (ALLOWED_USER_IDS cfg) (id (effective_user update)) ->
     photo update <> [] ->
     evs = [Log ERROR (str "CUPS_PRINTER_NAME environment variable is not set.");
            ReplyText (str "Printer is not configured. Please contact the administrator.")]).
Proof.
  intros Hc.
  destruct (nonempty (ALLOWED_USER_IDS cfg)
            && negb (py_in (id (effective_user update)) (ALLOWED_USER_IDS cfg))) eqn:G.
  - assert (Hd : ~ authorized (ALLOWED_USER_IDS cfg) (id (effective_user update))).
    { intros Ha. apply gate_authorized in Ha. congruence. }
    eexists. split; [now apply handle_image_denied|].
    split; [reflexivity|]. intros Ha. contradiction.
  - apply gate_authorized in G.
    destruct (photo update) as [|p l] eqn:Hp.
    + eexists. split; [now apply handle_image_no_photo|].
      split; [reflexivity|]. intros _ Hne. contradiction.
    + eexists. split; [apply handle_image_no_printer; [exact G|now rewrite Hp|exact Hc]|].
      split; reflexivity.
Qed.

Lemma no_printer_no_dispatch_witness :
  exists evs,
    handle_image latin1_runtime (sample_env (Exited 0 [] []))
      (sample_config None [1; 2]) (sample_update 2) sample_world =
    (Returns tt, after sample_world evs) /\
    existsb later_stage evs = false /\
    (authorized [1; 2] 2 ->
     photo (sample_update 2) <> [] ->
     evs = [Log ERROR (str "CUPS_PRINTER_NAME environment variable is not set.");
            ReplyText (str "Printer is not configured. Please contact the administrator.")]).
Proof.
  apply (no_printer_no_dispatch latin1_runtime (sample_env (Exited 0 [] []))
           (sample_config None [1; 2]) (sample_update 2) sample_world).
  reflexivity.
Defined.

(** C7, as stated, fails for a sender the gate denies: with no printer name
    and the allow-list [1], sender 2 gets the rejection, and no reply about
    the configuration. *)
Lemma no_printer_counterexample :
  truthy (CUPS_PRINTER_NAME (sample_config None [1])) = false /\
  trace (snd (handle_image latin1_runtime (sample_env (Exited 0 [] []))
                (sample_config None [1]) (sample_update 2) sample_world)) =
    [Log WARNING (str "Unauthorized image received from user 2 (ann)");
     ReplyText (str "Sorry, you are not authorized to use this bot.")] /\
  ~ In (ReplyText (str "Printer is not configured. Please contact the administrator."))
       (trace (snd (handle_image latin1_runtime (sample_env (Exited 0 [] []))
                      (sample_config None [1]) (sample_update 2) sample_world))).
Proof.
  split; [reflexivity|]. split; [reflexivity|].
  intros [H|[H|[]]]; discriminate H.
Qed.

(** ** The print dispatcher *)

(** Runs [print_image_cups] through every answer of the outside world. *)
Ltac run_print env :=
  unfold print_image_cups, NamedTemporaryFile, write_flush, run_checked;
  repeat first
    [ progress run_M
    | match goal with
      | |- context [tmp_create env ?s] => destruct (tmp_create env s) as [?name|?msg]
      | |- context [tmp_write env ?n ?d] => destruct (tmp_write env n d) as [[]|?msg]
      | |- context [subprocess_run env ?c] =>
          destruct (subprocess_run env c) as [?rc ?out ?err|?msg]
      | |- context [(?rc =? 0)%Z] => destruct (rc =? 0)%Z
      end ].

Lemma tmp_gone (name : path) (fs : gset path) : name ∉ ({[name]} ∪ fs) ∖ {[name]}.
Proof.
  rewrite elem_of_difference, elem_of_singleton. tauto.
Qed.

Lemma tmp_only (name : path) (fs : gset path) :
  ({[name]} ∪ fs) ∖ {[name]} = fs ∖ {[name]}.
Proof.
  apply set_eq. intros x.
  rewrite !elem_of_difference, elem_of_union, elem_of_singleton. tauto.
Qed.

(** C5. When [print_image_cups] returns, the temporary file it created is no
    longer on disk, whether the print command exited with status zero, exited
    with another status, or an exception was raised during the attempt; the
    other files are as they were. *)
Theorem temp_file_removed (rt : Runtime) (env : Env) (cfg : Config)
    (image_buffer : bytes) (printer_name : pystr) (copies : Z)
    (image_format : pystr) (w : World) :
  let w' := snd (print_image_cups rt env cfg image_buffer printer_name copies
                   image_format w) in
  match tmp_create env (str "." ++ image_format) with
  | Done name =>
      In (TempCreate name) (trace w') /\
      (name ∉ files w') /\
      files w' = files w ∖ {[name]}
  | Failed _ => files w' = files w
  end.
Proof.
  run_print env; cbn [files trace snd];
    try reflexivity;
    (split; [rewrite !in_app_iff; cbn; tauto|]);
    (split; [apply tmp_gone|apply tmp_only]).
Qed.

(** C6. [print_image_cups] never raises. Once the temporary file is written,
    it returns success with the captured standard output when [lp] exits
    with status zero, failure with the captured standard error when [lp]
    exits with another status, and failure with the message of the exception
    when [lp] cannot be run at all. *)
Theorem print_image_cups_result (rt : Runtime) (env : Env) (cfg : Config)
    (image_buffer : bytes) (printer_name : pystr) (copies : Z)
    (image_format : pystr) (w : World) :
  let result := fst (print_image_cups rt env cfg image_buffer printer_name copies
                       image_format w) in
  (exists success message, result = Returns (success, message)) /\
  (forall temp_file,
     tmp_create env (str "." ++ image_format) = Done temp_file ->
     tmp_write env temp_file image_buffer = Done tt ->
     result =
     Returns
       match subprocess_run env (lp_options cfg printer_name copies ++ [temp_file]) with
       | Exited returncode stdout stderr =>
           if returncode =? 0 then (true, stdout) else (false, stderr)
       | NotStarted msg => (false, msg)
       end).
Proof.
  split.
  - run_print env; eauto.
  - intros temp_file Hc Hw.
    unfold print_image_cups, NamedTemporaryFile, write_flush, run_checked.
    rewrite Hc. run_M. rewrite Hw. run_M.
    destruct (subprocess_run env _) as [rc out err|msg]; run_M;
      [destruct (rc =? 0)%Z|]; reflexivity.
Qed.

Lemma print_image_cups_result_witness :
  fst (print_image_cups latin1_runtime (sample_env (Exited 1 [] (str "printer-not-found")))
         (sample_config (Some (str "label")) []) [] (str "label") 2 (str "png")
         sample_world)
  = Returns (false, str "printer-not-found").
Proof.
  destruct (print_image_cups_result latin1_runtime
              (sample_env (Exited 1 [] (str "printer-not-found")))
              (sample_config (Some (str "label")) []) [] (str "label") 2 (str "png")
              sample_world) as [_ H].
  apply (H (str "/tmp/tmpab12cd.png")); reflexivity.
Defined.

(** ** The image normalizer *)

(** The box handed to Pillow is 1200 by 1800 pixels. *)
Lemma label_box : (LABEL_WIDTH_PX, LABEL_HEIGHT_PX) = (1200, 1800).
Proof. reflexivity. Qed.

(** The format is chosen once, from the mode of the image that [thumbnail]
    left, and the tag returned is that format in lower case. *)
Lemma resize_image_format (rt : Runtime) (env : Env) (data : bytes) (w : World)
    (img resized : Image) (out : bytes) :
  image_open env data = Done img ->
  image_thumbnail env (1200, 1800) img = Done resized ->
  image_save env resized (select_format (mode resized)) = Done out ->
  resize_image rt env data w =
  (Returns (Some (out, lower rt (select_format (mode resized)))),
   after w [ImageOpen data; ImageThumbnail (1200, 1800);
            ImageSave (select_format (mode resized))]).
Proof.
  intros Ho Ht Hs. unfold resize_image, Image_open, thumbnail, save.
  rewrite label_box. run_M. rewrite Ho. run_M. rewrite Ht. run_M. rewrite Hs.
  run_M. now rewrite <- !app_assoc.
Qed.

(** What the format line does on each mode of Pillow: PNG for RGBA and for
    the two palette modes, JPEG for every other mode. *)
Lemma select_format_modes (m : PilMode) :
  select_format (mode_name m) =
  match m with
  | Mode_RGBA | Mode_P | Mode_PA => str "PNG"
  | _ => str "JPEG"
  end.
Proof. destruct m; reflexivity. Qed.

(** C4. The format line misses an alpha channel: a greyscale image with
    alpha, of mode LA, is given to the JPEG encoder, where the claim has
    PNG; opaque RGB gets JPEG, and RGBA and palette images get PNG, as the
    claim says. *)
Theorem select_format_LA :
  has_alpha Mode_LA = true /\
  select_format (mode_name Mode_LA) = str "JPEG" /\
  select_format (mode_name Mode_RGB) = str "JPEG" /\
  select_format (mode_name Mode_RGBA) = str "PNG" /\
  select_format (mode_name Mode_P) = str "PNG".
Proof. repeat split; reflexivity. Qed.

(** ** The allow-list *)

Section AllowListFacts.

Variable rt : Runtime.

(** When no field passes [isdigit] the allow-list is empty, and then every
    sender is admitted. *)
Lemma int_fields_all_dropped (fields : list pystr) :
  forallb (fun f => negb (isdigit rt f)) fields = true ->
  int_fields rt fields = Returns [].
Proof.
  induction fields as [|f fields IH]; simpl; [reflexivity|].
  intros [Hf Hr]%andb_prop. apply negb_true_iff in Hf. rewrite Hf. now apply IH.
Qed.

Lemma empty_allow_list_open (sender : Z) : authorized [] sender.
Proof. now left. Qed.

Lemma decimal_value_ascii c :
  in_range 48 57 c = true -> decimal_value rt c = Some (Z.of_N c - 48).
Proof.
  intros H. unfold decimal_value. rewrite H.
  unfold in_range in H. apply andb_prop in H as [_ H%N.leb_le].
  destruct (c <? 256)%N eqn:E; [reflexivity|].
  apply N.ltb_ge in E. lia.
Qed.

Lemma isdigit_char_ascii c :
  (c < 128)%N -> isdigit_char rt c = in_range 48 57 c.
Proof.
  intros H. unfold isdigit_char.
  destruct (c <? 256)%N eqn:E; [|apply N.ltb_ge in E; lia].
  destruct (c =? 178)%N eqn:E1; [apply N.eqb_eq in E1; lia|].
  destruct (c =? 179)%N eqn:E2; [apply N.eqb_eq in E2; lia|].
  destruct (c =? 185)%N eqn:E3; [apply N.eqb_eq in E3; lia|].
  now rewrite !orb_false_r.
Qed.

Lemma isdigit_ascii (s : pystr) :
  Forall (fun c => (c < 128)%N) s -> isdigit rt s = ascii_digits s.
Proof.
  intros H. unfold isdigit, ascii_digits. destruct s as [|c s]; [reflexivity|].
  cbn [nonempty andb]. induction H as [|x l Hx Hl IH]; [reflexivity|].
  cbn [forallb]. now rewrite isdigit_char_ascii, IH.
Qed.

Lemma digits_value_ascii (s : pystr) : forall acc,
  forallb (in_range 48 57) s = true ->
  digits_value rt acc s =
  Some (fold_left (fun acc c => 10 * acc + (Z.of_N c - 48)) s acc).
Proof.
  induction s as [|c s IH]; intros acc; simpl; [reflexivity|].
  intros [Hc Hs]%andb_prop. rewrite (decimal_value_ascii c Hc). now apply IH.
Qed.

Lemma too_many_digits_short n : (n <= 640)%nat -> too_many_digits rt n = false.
Proof.
  intros H. unfold too_many_digits.
  destruct (640 <? n)%nat eqn:E; [apply Nat.ltb_lt in E; lia|reflexivity].
Qed.

(** On fields of ASCII text of at most 640 characters the comprehension does
    what the specification says: it keeps the fields made of digits, as
    integers, and drops the others. *)
Lemma int_fields_ascii (fields : list pystr) :
  Forall (fun f => Forall (fun c => (c < 128)%N) f /\ (length f <= 640)%nat) fields ->
  int_fields rt fields = Returns (map ascii_value (filter ascii_digits fields)).
Proof.
  induction 1 as [|f fields [Hf Hlen] _ IH]; [reflexivity|].
  cbn [int_fields]. rewrite (isdigit_ascii f Hf), IH.
  rewrite filter_cons.
  destruct (ascii_digits f) eqn:E.
  - rewrite decide_True by exact I.
    unfold py_int, ascii_digits in *. destruct f as [|c f]; [discriminate|].
    cbn [nonempty andb] in E. rewrite (digits_value_ascii _ 0 E).
    now rewrite (too_many_digits_short _ Hlen).
  - rewrite decide_False by (intros []). reflexivity.
Qed.

End AllowListFacts.

(** C9. A field may pass [isdigit] and still be refused by [int]: for the
    setting made of a superscript two (U+00B2) the comprehension raises
    [ValueError] while the module is loaded, where the claim has the field
    dropped. *)
Theorem allowed_user_ids_superscript (rt : Runtime) :
  isdigit rt [178%N] = true /\
  allowed_user_ids rt (Some [178%N]) = Raises (ValueError (int_error rt [178%N])).
Proof. split; reflexivity. Qed.

(** * Further properties of the code *)

(** ** More on the copy-count parser *)

Section ParserFacts.

Variable rt : Runtime.

(** The parser returns, and what it returns is at least 1. *)
Lemma parse_copies_returns (caption : option pystr) :
  exists n, parse_copies rt caption = Returns n /\ 1 <= n.
Proof.
  unfold parse_copies.
  destruct caption as [[|c s]|]; try (exists 1; split; [reflexivity|lia]).
  destruct (re_search rt (copies_regex rt) _) as [m|] eqn:E;
    [|exists 1; split; [reflexivity|lia]].
  apply search_from_group in E as [g ->].
  destruct (py_int_cases rt g) as [[v ->]|[msg ->]]; simpl.
  - exists (Z.max 1 v). split; [reflexivity|lia].
  - exists 1. split; [reflexivity|lia].
Qed.

Lemma digitless_tail x s : digitless rt (x :: s) -> digitless rt s.
Proof. unfold digitless. cbn. now intros [_ H]%orb_false_elim. Qed.

Lemma digitless_head x s : digitless rt (x :: s) -> is_decimal rt x = false.
Proof. unfold digitless. cbn. now intros [H _]%orb_false_elim. Qed.

(** A matcher whose continuation fails on every digitless rest fails on a
    digitless text. *)
Lemma star_greedy_digitless {A} p (k : cursor -> option A) :
  (forall cu, digitless rt (c_rest cu) -> k cu = None) ->
  forall s prev pos g, digitless rt s -> star_greedy p k prev s pos g = None.
Proof.
  intros Hk s. induction s as [|x s IH]; intros prev pos g Hs; simpl.
  - now apply Hk.
  - destruct (p x); [|now apply Hk].
    rewrite IH by (eapply digitless_tail, Hs). now apply Hk.
Qed.

Lemma rmatch_digitless {A} r : forall cu (k : cursor -> option A),
  (forall cu', digitless rt (c_rest cu') -> k cu' = None) ->
  digitless rt (c_rest cu) -> rmatch rt r cu k = None.
Proof.
  induction r as [|c|p| |r1 IH1 r2 IH2|r1 IH1 r2 IH2|p|r IH];
    intros cu k Hk Hcu; simpl.
  - now apply Hk.
  - destruct (c_rest cu) as [|x s] eqn:E; [reflexivity|].
    destruct (x =? c)%N; [|reflexivity]. apply Hk. eapply digitless_tail, Hcu.
  - destruct (c_rest cu) as [|x s] eqn:E; [reflexivity|].
    destruct (p x); [|reflexivity]. apply Hk. eapply digitless_tail, Hcu.
  - destruct (at_boundary rt cu); [now apply Hk|reflexivity].
  - apply IH1; [|exact Hcu]. intros cu' Hcu'. now apply IH2.
  - rewrite IH1 by assumption. now apply IH2.
  - now apply star_greedy_digitless.
  - apply IH; [|exact Hcu]. intros cu' Hcu'. now apply Hk.
Qed.

Lemma digits_digitless {A} cu (k : cursor -> option A) :
  digitless rt (c_rest cu) -> rmatch rt (Group (digits rt)) cu k = None.
Proof.
  intros Hcu. simpl. destruct (c_rest cu) as [|x s]; [reflexivity|].
  now rewrite (digitless_head _ _ Hcu).
Qed.

Lemma search_digitless s : forall prev pos,
  digitless rt s -> search_from rt (copies_regex rt) prev s pos = None.
Proof.
  induction s as [|c s IH]; intros prev pos Hs; cbn [search_from];
    unfold match_here, copies_regex; rewrite rmatch_Seq;
    rewrite rmatch_digitless; auto using digits_digitless.
  apply IH. eapply digitless_tail, Hs.
Qed.

End ParserFacts.

(** X1. A caption whose lowered text has no decimal digit asks for one copy,
    whatever letters, blanks and signs it holds. *)
Theorem parse_copies_no_digit (rt : Runtime) (caption : pystr) :
  existsb (is_decimal rt) (lower rt caption) = false ->
  parse_copies rt (Some caption) = Returns 1.
Proof.
  intros H. unfold parse_copies. destruct caption as [|c s]; [reflexivity|].
  unfold re_search. now rewrite search_digitless.
Qed.

Lemma parse_copies_no_digit_witness :
  parse_copies latin1_runtime (Some (str "copies = x, please")) = Returns 1.
Proof.
  apply (parse_copies_no_digit latin1_runtime (str "copies = x, please")).
  reflexivity.
Defined.

Section Alternatives.

Variable rt : Runtime.

Lemma search_from_start r s : forall prev pos m,
  search_from rt r prev s pos = Some m -> (pos <= m_start m)%nat.
Proof.
  induction s as [|c s IH]; intros prev pos m; cbn [search_from];
    destruct (match_here rt r prev _ pos) as [m'|] eqn:E; try discriminate.
  - intros [= <-]. apply match_here_start in E. lia.
  - intros [= <-]. apply match_here_start in E. lia.
  - intros H%IH. lia.
Qed.

Lemma search_leftmost s : forall prev pos,
  search_from rt (copies_regex rt) prev s pos =
  leftmost (search_from rt (x_alternative rt) prev s pos)
           (search_from rt (copies_alternative rt) prev s pos).
Proof.
  induction s as [|c s IH]; intros prev pos; cbn [search_from];
    rewrite match_here_alternatives;
    destruct (match_here rt (x_alternative rt) prev _ pos) as [mx|] eqn:Ex;
    destruct (match_here rt (copies_alternative rt) prev _ pos) as [mc|] eqn:Ec;
    try reflexivity.
  - apply match_here_start in Ex, Ec. cbn [leftmost]. rewrite Ex, Ec.
    now rewrite Nat.leb_refl.
  - apply match_here_start in Ex, Ec. cbn [leftmost]. rewrite Ex, Ec.
    now rewrite Nat.leb_refl.
  - apply match_here_start in Ex. cbn [leftmost].
    destruct (search_from rt (copies_alternative rt) (Some c) s (S pos)) as [m|] eqn:E;
      [|reflexivity].
    apply search_from_start in E.
    destruct (Nat.leb_spec (m_start mx) (m_start m)); [reflexivity|lia].
  - apply match_here_start in Ec.
    destruct (search_from rt (x_alternative rt) (Some c) s (S pos)) as [m|] eqn:E;
      [|reflexivity].
    apply search_from_start in E. cbn [leftmost].
    destruct (Nat.leb_spec (m_start m) (m_start mc)); [lia|reflexivity].
  - apply IH.
Qed.

(** The search for the multiplier alone is the plain scan. *)
Lemma search_x_scan s : forall prev pos,
  search_from rt (x_alternative rt) prev s pos =
  match first_x_digits rt s with
  | Some (i, ds) => Some {| m_start := (pos + i)%nat; m_group1 := Some ds |}
  | None => None
  end.
Proof.
  induction s as [|c s IH]; intros prev pos; cbn [search_from first_x_digits];
    rewrite match_here_x.
  - reflexivity.
  - destruct (x_digits_here rt (c :: s)) as [ds|].
    + now rewrite Nat.add_0_r.
    + rewrite IH. destruct (first_x_digits rt s) as [[i ds]|]; [|reflexivity].
      now rewrite Nat.add_succ_comm.
Qed.

End Alternatives.

(** X2. In a text that holds both forms the one that starts first decides:
    the match of the pattern is the leftmost of the first [x] followed by
    digits, found by the plain scan, and the first match of [copies=<N>]. *)
Theorem re_search_leftmost (rt : Runtime) (s : pystr) :
  re_search rt (copies_regex rt) s =
  leftmost
    match first_x_digits rt s with
    | Some (i, ds) => Some {| m_start := i; m_group1 := Some ds |}
    | None => None
    end
    (re_search rt (copies_alternative rt) s).
Proof.
  unfold re_search. rewrite search_leftmost, search_x_scan.
  now destruct (first_x_digits rt s) as [[i ds]|].
Qed.

(** ** Lower case within Latin-1 *)

Section Latin1.

Variable rt : Runtime.

Lemma lower1_latin1 c : (c < 256)%N -> (lower1 c < 256)%N.
Proof.
  intros H. unfold lower1, in_range.
  destruct (65 <=? c)%N eqn:A, (c <=? 90)%N eqn:B,
           (192 <=? c)%N eqn:C, (c <=? 222)%N eqn:D, (c =? 215)%N eqn:E;
    cbn; try lia;
    rewrite ?N.leb_le, ?N.leb_gt, ?N.eqb_eq, ?N.eqb_neq in *; lia.
Qed.

Lemma lower1_idem c : lower1 (lower1 c) = lower1 c.
Proof.
  unfold lower1 at 2. unfold in_range.
  destruct (65 <=? c)%N eqn:A, (c <=? 90)%N eqn:B,
           (192 <=? c)%N eqn:C, (c <=? 222)%N eqn:D, (c =? 215)%N eqn:E;
    cbn; rewrite ?N.leb_le, ?N.leb_gt, ?N.eqb_eq, ?N.eqb_neq in *;
    try lia; unfold lower1, in_range;
    repeat match goal with
           | |- context [(?a <=? ?b)%N] => destruct (N.leb_spec a b)
           | |- context [(?a =? ?b)%N] => destruct (N.eqb_spec a b)
           end; cbn; try reflexivity; lia.
Qed.

Lemma lower_latin1 s : forall before,
  Forall (fun c => (c < 256)%N) s -> lower_from rt before s = map lower1 s.
Proof.
  induction s as [|c s IH]; intros before H; [reflexivity|].
  inversion H as [|? ? Hc Hs]; subst. cbn [lower_from map].
  rewrite IH by assumption. unfold lower_char, lower1.
  apply N.ltb_lt in Hc. rewrite Hc.
  now destruct (in_range 65 90 c || in_range 192 222 c && negb (c =? 215)%N).
Qed.

Lemma lower_lower s :
  Forall (fun c => (c < 256)%N) s -> lower rt (lower rt s) = lower rt s.
Proof.
  intros H. unfold lower. rewrite (lower_latin1 s [] H).
  rewrite lower_latin1.
  - rewrite map_map. apply map_ext. intros c. apply lower1_idem.
  - apply Forall_map. eapply Forall_impl; [exact H|].
    intros c Hc. now apply lower1_latin1.
Qed.

End Latin1.

(** X3. Case does not matter: a caption within Latin-1 and its lower-case
    form give the same copy count. *)
Theorem parse_copies_case (rt : Runtime) (caption : pystr) :
  Forall (fun c => (c < 256)%N) caption ->
  parse_copies rt (Some (lower rt caption)) = parse_copies rt (Some caption).
Proof.
  intros H. unfold parse_copies. rewrite (lower_lower rt caption H).
  destruct caption as [|c s]; [reflexivity|].
  unfold lower. rewrite (lower_latin1 rt (c :: s) [] H). reflexivity.
Qed.

Lemma parse_copies_case_witness :
  parse_copies latin1_runtime (Some (lower latin1_runtime (str "Label X4")))
  = parse_copies latin1_runtime (Some (str "Label X4")).
Proof.
  apply (parse_copies_case latin1_runtime (str "Label X4")).
  repeat constructor.
Defined.

(** ** The stages of [handle_image] together *)

Lemma replies_app l1 l2 : replies (l1 ++ l2) = replies l1 ++ replies l2.
Proof. apply omap_app. Qed.

Lemma runs_app l1 l2 : runs (l1 ++ l2) = runs l1 ++ runs l2.
Proof. apply omap_app. Qed.

Lemma runs_quiet l evs : runs evs = [] -> runs (l ++ evs) = runs l.
Proof. intros H. now rewrite runs_app, H, app_nil_r. Qed.

Lemma tmp_subset (name : path) (fs : gset path) : ({[name]} ∪ fs) ∖ {[name]} ⊆ fs.
Proof.
  intros x. rewrite elem_of_difference, elem_of_union, elem_of_singleton. tauto.
Qed.

(** Runs a handler through every answer of the outside world. *)
Ltac run_handler env :=
  unfold handle_image, last_item, get_file, resize_image, Image_open, thumbnail,
    save, print_image_cups, NamedTemporaryFile, write_flush, run_checked;
  repeat first
    [ progress run_M
    | match goal with
      | |- context [download env ?p] => destruct (download env p) as [?data|?msg] eqn:?
      | |- context [image_open env ?d] => destruct (image_open env d) as [?img|?msg] eqn:?
      | |- context [image_thumbnail env ?b ?i] =>
          destruct (image_thumbnail env b i) as [?img|?msg] eqn:?
      | |- context [image_save env ?i ?f] =>
          destruct (image_save env i f) as [?out|?msg] eqn:?
      | |- context [tmp_create env ?s] =>
          destruct (tmp_create env s) as [?name|?msg] eqn:?
      | |- context [tmp_write env ?n ?d] =>
          destruct (tmp_write env n d) as [[]|?msg] eqn:?
      | |- context [subprocess_run env ?c] =>
          destruct (subprocess_run env c) as [?rc ?out ?err|?msg] eqn:?
      | |- context [(?rc =? 0)%Z] => destruct (rc =? 0)%Z eqn:?
      end ].

(** Splits on the three checks at the head of [handle_image]. *)
Ltac split_checks cfg update :=
  unfold handle_image, last_item;
  destruct (nonempty (ALLOWED_USER_IDS cfg)
            && negb (py_in (id (effective_user update)) (ALLOWED_USER_IDS cfg))) eqn:?;
  [|destruct (photo update) as [|?p ?l] eqn:?;
    [|cbn [nonempty negb];
      destruct (truthy (CUPS_PRINTER_NAME cfg)) eqn:?;
      [match goal with
       | |- context [last (?p :: ?l)] =>
           destruct (last (p :: l)) as [?largest|] eqn:?;
           [|match goal with H : last _ = None |- _ => now apply last_None in H end]
       end
      |]]].

Section Stages2.

Variable rt : Runtime.
Variable env : Env.
Variable cfg : Config.

(** X4. With replies taken as delivered, the only exception that leaves
    [handle_image] is a failure to fetch the photo: in every other case,
    whatever Pillow, the file system and the print command do, the handler
    returns normally. *)
Theorem handle_image_escapes (update : Update) (w : World) :
  match fst (handle_image rt env cfg update w) with
  | Returns _ => True
  | Raises e =>
      exists largest msg,
        last (photo update) = Some largest /\
        download env largest = Failed msg /\
        e = OtherError msg
  end.
Proof.
  destruct (parse_copies_returns rt (caption update)) as (n & Hn & _).
  split_checks cfg update; rewrite ?Hn; run_handler env; eauto.
Qed.

(** X5. [handle_image] leaves no file behind: whatever happens, every file on
    disk afterwards was there before. *)
Theorem handle_image_files (update : Update) (w : World) :
  files (snd (handle_image rt env cfg update w)) ⊆ files w.
Proof.
  split_checks cfg update;
    destruct (parse_copies rt (caption update)); run_handler env;
    try reflexivity; apply tmp_subset.
Qed.

(** Reads the commands, or the replies, off the events a run has added. *)
Ltac read_trace :=
  cbn [snd trace]; rewrite <- ?app_assoc;
  cbv [runs replies omap list_omap command_of reply_of app].

(** X6. [handle_image] spawns at most one process. When it does, a printer
    name is configured and the command line is, word for word, [lp], then
    [-h] and the print server when one is configured, [-d] and the printer
    name, [-n] and the number of copies that [parse_copies] returned, which
    is at least 1, the two [-o] options for the 4x6 media and fit-to-page,
    and last the name of the temporary file that was created for this run
    with the suffix [.png] or [.jpeg]. *)
Theorem handle_image_runs (update : Update) (w : World) :
  exists new,
    runs (trace (snd (handle_image rt env cfg update w))) = runs (trace w) ++ new /\
    (new = [] \/
     exists n printer tag name,
       parse_copies rt (caption update) = Returns n /\ 1 <= n /\
       CUPS_PRINTER_NAME cfg = Some printer /\
       (tag = str "png" \/ tag = str "jpeg") /\
       tmp_create env (str "." ++ tag) = Done name /\
       In (TempCreate name) (trace (snd (handle_image rt env cfg update w))) /\
       new =
         [[str "lp"]
          ++ match CUPS_SERVER_HOST cfg with
             | Some (c :: host) => [str "-h"; c :: host]
             | _ => []
             end
          ++ [str "-d"; printer; str "-n"; str_of_Z n;
              str "-o"; str "media=Custom.4x6in"; str "-o"; str "fit-to-page";
              name]]).
Proof.
  destruct (parse_copies_returns rt (caption update)) as (n & Hn & Hge).
  split_checks cfg update; rewrite ?Hn; run_handler env;
    (eexists; split;
     [cbn [snd trace]; rewrite <- ?app_assoc, runs_app; reflexivity|]);
    read_trace; try (now left).
  all: right;
    destruct (CUPS_PRINTER_NAME cfg) as [printer|] eqn:Hp; [|discriminate];
    exists n, printer; eexists _, _;
    (split; [reflexivity|]); (split; [exact Hge|]); (split; [reflexivity|]);
    (split; [|split; [eassumption|]]);
    [ unfold select_format;
      destruct (pystr_eqb _ _ || contains _ _); [left|right]; reflexivity
    | split;
      [ rewrite !in_app_iff; cbn [In]; tauto
      | unfold lp_options; cbn [fmt_opt];
        destruct (CUPS_SERVER_HOST cfg) as [[|c host]|]; reflexivity ] ].
Qed.

(** X7. A photo message handled to the end is answered: [handle_image] sends
    one reply, or two when it gets as far as the image; a run cut short by a
    failed fetch sends none. *)
Theorem handle_image_reply_count (update : Update) (w : World) :
  exists new,
    replies (trace (snd (handle_image rt env cfg update w)))
      = replies (trace w) ++ new /\
    match fst (handle_image rt env cfg update w) with
    | Returns _ => (1 <= length new <= 2)%nat
    | Raises _ => new = []
    end.
Proof.
  destruct (parse_copies_returns rt (caption update)) as (n & Hn & Hge).
  split_checks cfg update; rewrite ?Hn; run_handler env;
    (eexists; split;
     [cbn [snd trace]; rewrite <- ?app_assoc, replies_app; reflexivity|]);
    read_trace; cbn [fst length]; solve [lia | reflexivity].
Qed.

(** X8. [handle_image] fetches at most one file from Telegram, the last
    photo size of the message, and only for an admitted sender when a printer
    is configured. *)
Theorem handle_image_fetches (update : Update) (w : World) :
  exists new,
    fetched (trace (snd (handle_image rt env cfg update w))) = fetched (trace w) ++ new /\
    (new = [] \/
     exists largest,
       new = [largest] /\
       last (photo update) = Some largest /\
       authorized (ALLOWED_USER_IDS cfg) (id (effective_user update)) /\
       truthy (CUPS_PRINTER_NAME cfg) = true).
Proof.
  destruct (parse_copies_returns rt (caption update)) as (n & Hn & Hge).
  split_checks cfg update; rewrite ?Hn; run_handler env;
    (eexists; split;
     [cbn [snd trace]; rewrite <- ?app_assoc; unfold fetched; rewrite omap_app;
      reflexivity|]);
    cbn [snd trace]; rewrite <- ?app_assoc;
    cbv [omap list_omap fetch_of app];
    first [now left
          | right; eexists; repeat split; try eassumption;
            now apply gate_authorized].
Qed.

(** X9. [resize_image] raises nothing and keeps off the disk: it returns a
    buffer tagged png or jpeg, or, when Pillow fails to open, shrink or encode
    the image, logs the error and returns nothing. *)
Theorem resize_image_outcome (data : bytes) (w : World) :
  exists r evs,
    resize_image rt env data w = (Returns r, after w evs) /\
    existsb on_disk evs = false /\
    match r with
    | Some (_, tag) => tag = str "png" \/ tag = str "jpeg"
    | None => exists msg, last evs = Some (Log ERROR (str "Error resizing image: " ++ msg))
    end.
Proof.
  run_handler env; cbn [exn_str];
    (do 2 eexists; split; [unfold after; rewrite <- ?app_assoc; reflexivity|]);
    (split; [reflexivity|]); eauto.
  unfold select_format.
  destruct (pystr_eqb _ _ || contains _ _); [left|right]; reflexivity.
Qed.

(** X10. [print_image_cups] runs [lp] only on a file it has just written, and
    removes the file after [lp] has ended; when the file cannot be created or
    written, it runs nothing. *)
Theorem print_image_cups_order (image_buffer : bytes) (printer_name : pystr)
    (copies : Z) (image_format : pystr) (w : World) :
  let w' := snd (print_image_cups rt env cfg image_buffer printer_name copies
                   image_format w) in
  match tmp_create env (str "." ++ image_format) with
  | Done name =>
      match tmp_write env name image_buffer with
      | Done _ =>
          exists msg rest,
            trace w' =
              trace w ++ [TempCreate name; TempWrite name image_buffer; Log INFO msg;
                          Run (lp_options cfg printer_name copies ++ [name])] ++ rest /\
            In (TempDelete name) rest /\ runs rest = []
      | Failed _ => runs (trace w') = runs (trace w)
      end
  | Failed _ => runs (trace w') = runs (trace w)
  end.
Proof.
  run_handler env; cbn [snd trace]; rewrite <- ?app_assoc;
    try (apply runs_quiet; reflexivity);
    do 2 eexists; (split; [reflexivity|]); split;
    solve [cbn; tauto | reflexivity].
Qed.

(** X11. When the photo is fetched, normalized and written to the temporary
    file, [handle_image] runs [lp] once on that file, removes the file, and
    answers twice: first with the number of copies, then with the standard
    output of [lp] on exit status 0, and otherwise with its standard error,
    or with the message of the exception when [lp] could not be run. *)
Theorem handle_image_prints (update : Update) (w : World) (largest : PhotoSize)
    (printer : pystr) (data : bytes) (img resized : Image) (out : bytes)
    (name : path) :
  authorized (ALLOWED_USER_IDS cfg) (id (effective_user update)) ->
  last (photo update) = Some largest ->
  CUPS_PRINTER_NAME cfg = Some printer -> printer <> [] ->
  download env largest = Done data ->
  image_open env data = Done img ->
  image_thumbnail env (LABEL_WIDTH_PX, LABEL_HEIGHT_PX) img = Done resized ->
  image_save env resized (select_format (mode resized)) = Done out ->
  tmp_create env (str "." ++ lower rt (select_format (mode resized))) = Done name ->
  tmp_write env name out = Done tt ->
  exists copies,
    parse_copies rt (caption update) = Returns copies /\ 1 <= copies /\
    exists w',
      handle_image rt env cfg update w = (Returns tt, w') /\
      files w' = files w ∖ {[name]} /\
      runs (trace w') = runs (trace w) ++ [lp_options cfg printer copies ++ [name]] /\
      replies (trace w') =
        replies (trace w) ++
        [str "Received image. Resizing and preparing to print " ++ str_of_Z copies
           ++ str " cop" ++ (if copies =? 1 then str "y" else str "ies") ++ str "...";
         match subprocess_run env (lp_options cfg printer copies ++ [name]) with
         | Exited returncode stdout stderr =>
             if returncode =? 0
             then str "Sent to printer! CUPS message: " ++ stdout
             else str "Failed to send to printer. Error: " ++ stderr
         | NotStarted msg => str "Failed to send to printer. Error: " ++ msg
         end].
Proof.
  intros Ha Hl Hp Hne Hd Ho Ht Hs Hc Hw.
  destruct (parse_copies_returns rt (caption update)) as (n & Hn & Hge).
  exists n. split; [exact Hn|]. split; [exact Hge|].
  apply gate_authorized in Ha. unfold handle_image, last_item.
  rewrite Ha, Hl, Hp, Hn.
  destruct (photo update) as [|p l]; [discriminate|].
  destruct printer as [|c printer]; [contradiction|].
  cbn [nonempty negb truthy fmt_opt].
  unfold get_file, resize_image, Image_open, thumbnail, save, print_image_cups,
    NamedTemporaryFile, write_flush, run_checked.
  repeat first [progress run_M | progress rewrite ?Hd, ?Ho, ?Ht, ?Hs, ?Hc, ?Hw].
  run_handler env; cbn [exn_str];
    (eexists; split; [reflexivity|]); cbn [files trace];
    (split; [apply tmp_only|]);
    rewrite <- ?app_assoc, ?runs_app, ?replies_app;
    cbv [runs replies omap list_omap command_of reply_of app];
    split; reflexivity.
Qed.

(** X12. When Pillow fails at any step, [handle_image] answers that it could
    not process the image, after the reply with the number of copies, and
    goes no further: it creates no file and runs no command. *)
Theorem handle_image_unreadable (update : Update) (w : World) (largest : PhotoSize)
    (data : bytes) :
  authorized (ALLOWED_USER_IDS cfg) (id (effective_user update)) ->
  last (photo update) = Some largest ->
  truthy (CUPS_PRINTER_NAME cfg) = true ->
  download env largest = Done data ->
  ((exists msg, image_open env data = Failed msg) \/
   (exists img msg,
      image_open env data = Done img /\
      image_thumbnail env (LABEL_WIDTH_PX, LABEL_HEIGHT_PX) img = Failed msg) \/
   (exists img resized msg,
      image_open env data = Done img /\
      image_thumbnail env (LABEL_WIDTH_PX, LABEL_HEIGHT_PX) img = Done resized /\
      image_save env resized (select_format (mode resized)) = Failed msg)) ->
  exists copies evs,
    parse_copies rt (caption update) = Returns copies /\
    handle_image rt env cfg update w = (Returns tt, after w evs) /\
    existsb on_disk evs = false /\
    replies evs =
      [str "Received image. Resizing and preparing to print " ++ str_of_Z copies
         ++ str " cop" ++ (if copies =? 1 then str "y" else str "ies") ++ str "...";
       str "Failed to process the image."].
Proof.
  intros Ha Hl Hp Hd Hfail.
  destruct (parse_copies_returns rt (caption update)) as (n & Hn & Hge).
  exists n. apply gate_authorized in Ha. unfold handle_image, last_item.
  rewrite Ha, Hl, Hp, Hn.
  destruct (photo update) as [|p l]; [discriminate|].
  cbn [nonempty negb].
  unfold get_file, resize_image, Image_open, thumbnail, save.
  destruct Hfail as [(msg & H1)|[(img & msg & H1 & H2)|(img & resized & msg & H1 & H2 & H3)]];
    repeat first [progress run_M | progress rewrite ?Hd, ?H1, ?H2, ?H3];
    (eexists; split; [reflexivity|]);
    (split; [unfold after; rewrite <- ?app_assoc; reflexivity|]);
    split; reflexivity.
Qed.

End Stages2.

Lemma handle_image_prints_witness :
  exists copies,
    parse_copies latin1_runtime (caption (sample_update 2)) = Returns copies /\
    1 <= copies /\
    exists w',
      handle_image latin1_runtime (sample_env (Exited 0 (str "request id is 1") []))
        (sample_config (Some (str "label")) [1; 2]) (sample_update 2) sample_world
      = (Returns tt, w') /\
      files w' = files sample_world ∖ {[str "/tmp/tmpab12cd.jpeg"]} /\
      runs (trace w') =
        runs (trace sample_world) ++
        [lp_options (sample_config (Some (str "label")) [1; 2]) (str "label") copies
           ++ [str "/tmp/tmpab12cd.jpeg"]] /\
      replies (trace w') =
        replies (trace sample_world) ++
        [str "Received image. Resizing and preparing to print " ++ str_of_Z copies
           ++ str " cop" ++ (if copies =? 1 then str "y" else str "ies") ++ str "...";
         match
           subprocess_run (sample_env (Exited 0 (str "request id is 1") []))
             (lp_options (sample_config (Some (str "label")) [1; 2]) (str "label") copies
                ++ [str "/tmp/tmpab12cd.jpeg"])
         with
         | Exited returncode stdout stderr =>
             if returncode =? 0
             then str "Sent to printer! CUPS message: " ++ stdout
             else str "Failed to send to printer. Error: " ++ stderr
         | NotStarted msg => str "Failed to send to printer. Error: " ++ msg
         end].
Proof.
  apply (handle_image_prints latin1_runtime
           (sample_env (Exited 0 (str "request id is 1") []))
           (sample_config (Some (str "label")) [1; 2]) (sample_update 2) sample_world
           {| file_id := str "large" |} (str "label") []
           {| mode := str "RGB"; size := (640, 480) |}
           {| mode := str "RGB"; size := (640, 480) |} []
           (str "/tmp/tmpab12cd.jpeg"));
    try reflexivity.
  - unfold authorized. compute_done.
  - discriminate.
Defined.

Lemma handle_image_unreadable_witness :
  exists copies evs,
    parse_copies latin1_runtime (caption (sample_update 2)) = Returns copies /\
    handle_image latin1_runtime corrupt_env (sample_config (Some (str "label")) [])
      (sample_update 2) sample_world = (Returns tt, after sample_world evs) /\
    existsb on_disk evs = false /\
    replies evs =
      [str "Received image. Resizing and preparing to print " ++ str_of_Z copies
         ++ str " cop" ++ (if copies =? 1 then str "y" else str "ies") ++ str "...";
       str "Failed to process the image."].
Proof.
  apply (handle_image_unreadable latin1_runtime corrupt_env
           (sample_config (Some (str "label")) []) (sample_update 2) sample_world
           {| file_id := str "large" |} []); try reflexivity.
  - now left.
  - left. now exists (str "cannot identify image file").
Defined.

(** ** The configuration at start-up *)

(** The fields of a split hold characters of the text and are no longer than
    it. *)
Lemma split_on_fields (P : N -> Prop) sep s : forall cur,
  Forall P cur -> Forall P s ->
  Forall (fun f => Forall P f /\ (length f <= length cur + length s)%nat)
         (split_on sep cur s).
Proof.
  induction s as [|c s IH]; intros cur Hcur Hs; cbn [split_on].
  - constructor; [|constructor]. split; [exact Hcur|lia].
  - inversion Hs as [|? ? Hc Hs']; subst. destruct (c =? sep)%N.
    + constructor; [split; [exact Hcur|lia]|].
      eapply Forall_impl; [apply (IH []); [constructor|exact Hs']|].
      cbn. intros f [Hf Hlen]. split; [exact Hf|lia].
    + eapply Forall_impl;
        [apply (IH (cur ++ [c])); [apply Forall_app; split; [exact Hcur|now constructor]
                                   |exact Hs']|].
      cbn. intros f [Hf Hlen]. split; [exact Hf|].
      rewrite length_app in Hlen. cbn in Hlen. lia.
Qed.

(** X13. For a setting in ASCII of at most 640 characters the allow-list is
    read as intended: the comma-separated fields made of digits only, as
    integers and in their order; every other field (empty, with a blank, a
    sign or a letter) is dropped, and nothing is raised. *)
Theorem allowed_user_ids_ascii (rt : Runtime) (raw : pystr) :
  Forall (fun c => (c < 128)%N) raw ->
  (length raw <= 640)%nat ->
  allowed_user_ids rt (Some raw) =
  Returns (map ascii_value (filter ascii_digits (split (chr ",") raw))).
Proof.
  intros Hraw Hlen. unfold allowed_user_ids, split.
  apply int_fields_ascii.
  eapply Forall_impl;
    [apply (split_on_fields (fun c => (c < 128)%N) (chr ",") raw []);
     [constructor|exact Hraw]|].
  cbn. intros f [Hf Hl]. split; [exact Hf|lia].
Qed.

Lemma allowed_user_ids_ascii_witness :
  allowed_user_ids latin1_runtime (Some (str "12,bob, 7,-3,,007")) = Returns [12; 7].
Proof.
  apply (allowed_user_ids_ascii latin1_runtime (str "12,bob, 7,-3,,007")).
  - repeat constructor.
  - cbn. lia.
Defined.

(** X14. When the setting of the allow-list is absent, or none of its fields
    passes [isdigit] (names, signed numbers, numbers with blanks), the
    configuration loads with an empty allow-list, and then every sender is
    admitted: [start] welcomes whoever writes. *)
Theorem open_access (rt : Runtime) (environ : gmap pystr pystr) :
  match getenv environ "ALLOWED_USER_IDS" with
  | Some raw => forallb (fun f => negb (isdigit rt f)) (split (chr ",") raw) = true
  | None => True
  end ->
  exists cfg,
    load_config rt environ = Returns cfg /\
    ALLOWED_USER_IDS cfg = [] /\
    forall update w,
      start cfg update w =
      (Returns tt,
       after w [ReplyHtml (str "Hi " ++ mention_html (effective_user update)
                             ++ str "! Send me an image to print on the label printer.")]).
Proof.
  intros H. unfold load_config, allowed_user_ids.
  destruct (getenv environ "ALLOWED_USER_IDS") as [raw|].
  - rewrite (int_fields_all_dropped rt _ H). eexists. split; [reflexivity|].
    split; [reflexivity|]. intros update w. apply start_admitted. now left.
  - eexists. split; [reflexivity|].
    split; [reflexivity|]. intros update w. apply start_admitted. now left.
Qed.

Lemma open_access_witness :
  exists cfg,
    load_config latin1_runtime (sample_environ "alice,bob, 12,-5") = Returns cfg /\
    ALLOWED_USER_IDS cfg = [] /\
    forall update w,
      start cfg update w =
      (Returns tt,
       after w [ReplyHtml (str "Hi " ++ mention_html (effective_user update)
                             ++ str "! Send me an image to print on the label printer.")]).
Proof.
  apply (open_access latin1_runtime (sample_environ "alice,bob, 12,-5")).
  vm_compute. reflexivity.
Defined.

(** X15. Without a bot token [main] logs a critical message and stops: it
    registers no handler and never polls. With a token it registers [start]
    for the start command, [handle_image] for photos that are not commands
    and the error handler, in this order, and polls, whether or not a printer
    or an allow-list is configured. *)
Theorem main_startup (cfg : Config) :
  registrations (main cfg) =
    (if truthy (TELEGRAM_BOT_TOKEN cfg) then
       [AddCommandHandler (str "start") cb_start;
        AddMessageHandler (FilterAnd PHOTO (FilterNot COMMAND)) cb_handle_image;
        AddErrorHandler cb_error_handler]
     else []) /\
  (if truthy (TELEGRAM_BOT_TOKEN cfg) then last (main cfg) = Some RunPolling
   else main cfg =
        [LogCritical (str "TELEGRAM_BOT_TOKEN environment variable is not set. Exiting.")]).
Proof.
  unfold main, registrations.
  destruct (truthy (TELEGRAM_BOT_TOKEN cfg)); cbn [negb]; [|split; reflexivity].
  destruct (truthy (CUPS_PRINTER_NAME cfg)), (nonempty (ALLOWED_USER_IDS cfg));
    split; reflexivity.
Qed.

(** ** The size of the normalized image *)

Section ThumbnailSize.

Local Open Scope Z_scope.

(** The rounded quotient is within the bound and less than one away from the
    exact quotient. *)
Lemma round_aspect_bounds (num den bound : Z) prefer_floor :
  0 < num -> 0 < den -> num <= bound * den ->
  1 <= round_aspect num den prefer_floor <= bound /\
  Z.abs (round_aspect num den prefer_floor * den - num) < den.
Proof.
  intros Hnum Hden Hb. unfold round_aspect.
  pose proof (Z.div_mod num den ltac:(lia)) as Hdm.
  pose proof (Z.mod_pos_bound num den Hden) as Hm.
  set (lo := num / den) in *. set (m := num mod den) in *.
  assert (0 <= lo) by (apply Z.div_pos; lia).
  assert (1 <= bound) by nia.
  assert (lo <= bound) by nia.
  destruct (Z.eqb_spec m 0) as [Hz|Hz].
  - destruct (prefer_floor lo lo); split; nia.
  - assert (lo + 1 <= bound) by nia.
    destruct (prefer_floor lo (lo + 1)); split; nia.
Qed.

Lemma thumbnail_size_fits (x y width height : Z) :
  0 < x -> 0 < y -> 0 < width -> 0 < height ->
  let '(w, h) := thumbnail_size (x, y) (width, height) in
  1 <= w <= x /\ 1 <= h <= y /\
  (Z.abs (w * height - h * width) < height \/
   Z.abs (w * height - h * width) < width) /\
  (width <= x -> height <= y -> (w, h) = (width, height)).
Proof.
  intros Hx Hy Hw Hh. unfold thumbnail_size.
  destruct (Z.leb_spec width x) as [Hwx|Hwx];
    [destruct (Z.leb_spec height y) as [Hhy|Hhy]|]; cbn [andb].
  - split; [lia|]. split; [lia|]. split; [left; lia|]. reflexivity.
  - destruct (Z.leb_spec (width * y) (x * height)) as [Hc|Hc]; [|nia].
    destruct (round_aspect_bounds (y * width) height x
                (fun lo hi => Z.abs (width * y - lo * height)
                              <=? Z.abs (width * y - hi * height)))
      as [Hr Ha]; lia.
  - destruct (Z.leb_spec (width * y) (x * height)) as [Hc|Hc].
    + destruct (round_aspect_bounds (y * width) height x
                  (fun lo hi => Z.abs (width * y - lo * height)
                                <=? Z.abs (width * y - hi * height)))
        as [Hr Ha]; lia.
    + destruct (round_aspect_bounds (x * height) width y
                  (fun lo hi =>
                     (lo =? 0)
                     || (Z.abs (width * lo - x * height) * hi
                         <=? Z.abs (width * hi - x * height) * lo)))
        as [Hr Ha]; lia.
Qed.

End ThumbnailSize.

(** C3, as amended. Whenever [resize_image] returns an image for a photo that
    decodes to a width and a height of at least one pixel, the image it has
    encoded is at most 1200 wide and 1800 high, its sides are off the source's
    aspect ratio by less than one pixel, and they are the source's own when
    the source already fits the box; the size is the one [thumbnail] leaves. *)
Theorem resize_image_fits (rt : Runtime) (env : Env) (data : bytes) (w : World)
    (img : Image) (out : bytes) (tag : pystr) :
  thumbnail_follows env ->
  image_open env data = Done img ->
  0 < fst (size img) -> 0 < snd (size img) ->
  fst (resize_image rt env data w) = Returns (Some (out, tag)) ->
  exists resized,
    image_thumbnail env (1200, 1800) img = Done resized /\
    image_save env resized (select_format (mode resized)) = Done out /\
    1 <= fst (size resized) <= 1200 /\
    1 <= snd (size resized) <= 1800 /\
    (Z.abs (fst (size resized) * snd (size img) - snd (size resized) * fst (size img))
       < snd (size img) \/
     Z.abs (fst (size resized) * snd (size img) - snd (size resized) * fst (size img))
       < fst (size img)) /\
    (fst (size img) <= 1200 -> snd (size img) <= 1800 -> size resized = size img).
Proof.
  intros Hfollow Ho Hw0 Hh0.
  unfold resize_image, Image_open, thumbnail, save. rewrite label_box.
  run_M. rewrite Ho. run_M.
  destruct (image_thumbnail env (1200, 1800) img) as [resized|msg] eqn:Ht;
    run_M; [|discriminate].
  destruct (image_save env resized (select_format (mode resized))) as [out'|msg] eqn:Hs;
    run_M; [|discriminate].
  intros [= <- _]. exists resized.
  destruct (Hfollow _ _ _ Ht) as [_ Hsize].
  destruct (size img) as [width height]. cbn [fst snd] in *.
  pose proof (thumbnail_size_fits 1200 1800 width height
                ltac:(lia) ltac:(lia) Hw0 Hh0) as Hfit.
  rewrite <- Hsize in Hfit. destruct (size resized) as [rw rh].
  cbn [fst snd]. destruct Hfit as (H1 & H2 & H3 & H4).
  repeat split; try lia; try exact H3; auto.
Qed.

Lemma resize_image_fits_witness :
  exists resized,
    image_thumbnail (pillow_env {| mode := str "RGB"; size := (3000, 2000) |})
      (1200, 1800) {| mode := str "RGB"; size := (3000, 2000) |} = Done resized /\
    image_save (pillow_env {| mode := str "RGB"; size := (3000, 2000) |}) resized
      (select_format (mode resized)) = Done [] /\
    1 <= fst (size resized) <= 1200 /\
    1 <= snd (size resized) <= 1800 /\
    (Z.abs (fst (size resized) * 2000 - snd (size resized) * 3000) < 2000 \/
     Z.abs (fst (size resized) * 2000 - snd (size resized) * 3000) < 3000) /\
    (3000 <= 1200 -> 2000 <= 1800 -> size resized = (3000, 2000)).
Proof.
  apply (resize_image_fits latin1_runtime
           (pillow_env {| mode := str "RGB"; size := (3000, 2000) |}) []
           sample_world {| mode := str "RGB"; size := (3000, 2000) |} [] (str "jpeg")).
  - intros box im resized [= <-]. split; reflexivity.
  - reflexivity.
  - cbn. lia.
  - cbn. lia.
  - reflexivity.
Defined.

(** C3, as stated, fails: a photo may decode and still give no image. A
    greyscale image with alpha, of mode LA, and a floating-point image, of
    mode F, both decode and fit the box; the format line picks JPEG for either
    mode, the encoder refuses it, and [resize_image] returns nothing. *)
Lemma resize_image_counterexample :
  image_open (pillow_env {| mode := str "LA"; size := (640, 480) |}) []
    = Done {| mode := str "LA"; size := (640, 480) |} /\
  fst (resize_image latin1_runtime
         (pillow_env {| mode := str "LA"; size := (640, 480) |}) [] sample_world)
    = Returns None /\
  image_open (pillow_env {| mode := str "F"; size := (640, 480) |}) []
    = Done {| mode := str "F"; size := (640, 480) |} /\
  fst (resize_image latin1_runtime
         (pillow_env {| mode := str "F"; size := (640, 480) |}) [] sample_world)
    = Returns None.
Proof. repeat split; reflexivity. Qed.
